(** * 104_crawler: a shallow embedding of [104.py]

    The crawler drives a browser through the listing pages of a job
    site, extracts the detail-page links, parses every detail page into
    a dictionary of 25 fields, retries the failures, filters the records
    and counts them.

    Python values are modelled as follows.
    - [str] is a [string] holding the UTF-8 bytes of the text; equality
      and the substring test agree with Python's on valid UTF-8.
    - a [dict] with string keys is a [gmap string _]; a [set] of strings
      is a [gset string].
    - an exception is an [exn] (class name and rendered [args]); code that
      can raise returns a [result], code that also mutates runs in [Py].
    - what the program gets from outside (BeautifulSoup's parser,
      [str.strip], the pages the browser receives, the traceback of a
      raise) is collected in an [Env] and never inspected. *)

From Stdlib Require Import ZArith String Ascii List Lia.
From stdpp Require Import base decidable option list functions gmap strings pretty.

Open Scope string_scope.

(** ** Exceptions and the state-and-exception monad *)

Record exn := Exn { exc_class : string; exc_args : list string }.

Inductive result (A : Type) : Type :=
| Ok (a : A)
| Raise (e : exn).
Arguments Ok {A} a.
Arguments Raise {A} e.

(** A statement sequence over a mutable state [S]: it ends normally with a
    value or raises, and in both cases the mutations made so far stay. *)
Definition Py (S A : Type) : Type := S -> result A * S.

Definition ret {S A} (a : A) : Py S A := fun s => (Ok a, s).

Definition raise {S A} (e : exn) : Py S A := fun s => (Raise e, s).

Definition bind {S A B} (m : Py S A) (k : A -> Py S B) : Py S B :=
  fun s =>
    match m s with
    | (Ok a, s') => k a s'
    | (Raise e, s') => (Raise e, s')
    end.

Definition lift {S A} (r : result A) : Py S A := fun s => (r, s).

Notation "'do' x <- m ; k" := (bind m (fun x => k))
  (at level 10, x name, m at level 100, k at level 200, only parsing).
Notation "m ;; k" := (bind m (fun _ => k))
  (at level 100, k at level 200, right associativity, only parsing).

(** [try: body / except Exception as e: handler e]. Every [exn] of the
    model is an instance of [Exception]; interrupts and exits, which such a
    handler lets through, come from outside the program and are left out. *)
Definition try_except {S A} (body : Py S A) (handler : exn -> Py S A) : Py S A :=
  fun s =>
    match body s with
    | (Ok a, s') => (Ok a, s')
    | (Raise e, s') => handler e s'
    end.

(** [try: body / except: pass]. *)
Definition try_pass {S} (body : Py S unit) : Py S unit :=
  try_except body (fun _ => ret tt).

(** [for x in l: body x]. *)
Fixpoint for_each {S A} (l : list A) (body : A -> Py S unit) : Py S unit :=
  match l with
  | [] => ret tt
  | x :: l' => body x ;; for_each l' body
  end.

(** ** Strings *)

(** Python's [t in s] on two strings. *)
Fixpoint str_contains (t s : string) : bool :=
  String.prefix t s ||
  match s with
  | EmptyString => false
  | String _ s' => str_contains t s'
  end.

(** [sep.join(l)]. *)
Fixpoint join (sep : string) (l : list string) : string :=
  match l with
  | [] => ""
  | [x] => x
  | x :: l' => x +:+ sep +:+ join sep l'
  end.

(** A UTF-8 continuation byte, 10xxxxxx. *)
Definition is_continuation (c : ascii) : bool :=
  let n := nat_of_ascii c in (128 <=? n)%nat && (n <? 192)%nat.

Fixpoint skip_continuation (s : string) : string :=
  match s with
  | String c s' => if is_continuation c then skip_continuation s' else s
  | EmptyString => s
  end.

(** [s[n:]]: drops the first [n] characters (code points) of [s]. *)
Fixpoint str_drop (n : nat) (s : string) : string :=
  match n, s with
  | O, _ => s
  | S n', String _ s' => str_drop n' (skip_continuation s')
  | S _, EmptyString => ""
  end.

(** ** The document tree BeautifulSoup hands out *)

(** An attribute value: a string, or for the multi-valued [class] the list
    of its whitespace-separated parts. *)
Inductive attr_value :=
| AStr (s : string)
| AList (l : list string).

#[warnings="-register-all"]
Inductive node :=
| Tag (name : string) (attrs : gmap string attr_value) (contents : list node)
| NavigableString (s : string)
| Comment (s : string).

(** [tag.descendants]: every node below [n], in document order. *)
Fixpoint descendants (n : node) : list node :=
  match n with
  | Tag _ _ cs => flat_map (fun c => c :: descendants c) cs
  | _ => []
  end.

(** [tag.text]: the strings below [n], comments left out, concatenated. *)
Definition node_string (n : node) : string :=
  match n with
  | NavigableString s => s
  | _ => ""
  end.

Definition text (n : node) : string :=
  String.concat "" (map node_string (descendants n)).

Definition node_attrs (n : node) : gmap string attr_value :=
  match n with
  | Tag _ a _ => a
  | _ => ∅
  end.

(** How a search string is matched against an attribute: equal to it, or
    for a multi-valued attribute equal to one of the parts or to the parts
    joined by single spaces. *)
Definition matches_value (v : option attr_value) (want : string) : bool :=
  match v with
  | None => bool_decide (want = "")
  | Some (AStr s) => bool_decide (s = want)
  | Some (AList l) =>
      existsb (fun c => bool_decide (c = want)) l
      || bool_decide (join " " l = want)
  end.

Definition matches (name : string) (attrs : list (string * string)) (n : node) : bool :=
  match n with
  | Tag nm a _ =>
      bool_decide (nm = name)
      && forallb (fun kw => matches_value (a !! kw.1) kw.2) attrs
  | _ => false
  end.

(** [tag.find_all(name, attrs)] and [tag.find(name, attrs)]; the form
    [find_all(name, "cls")] is [find_all(name, {"class": "cls"})]. *)
Definition find_all (n : node) (name : string) (attrs : list (string * string)) : list node :=
  List.filter (matches name attrs) (descendants n).

Definition find (n : node) (name : string) (attrs : list (string * string)) : option node :=
  head (find_all n name attrs).

(** The same operations on the result of an earlier [find], which is
    [None] when nothing matched. *)
Definition none_has_no (a : string) : exn :=
  Exn "AttributeError" ["'NoneType' object has no attribute '" +:+ a +:+ "'"].

Definition py_find (o : option node) (name : string) (attrs : list (string * string))
  : result (option node) :=
  match o with
  | None => Raise (none_has_no "find")
  | Some n => Ok (find n name attrs)
  end.

Definition py_find_all (o : option node) (name : string) (attrs : list (string * string))
  : result (list node) :=
  match o with
  | None => Raise (none_has_no "find_all")
  | Some n => Ok (find_all n name attrs)
  end.

Definition py_text (o : option node) : result string :=
  match o with
  | None => Raise (none_has_no "text")
  | Some n => Ok (text n)
  end.

(** [o[key]]. *)
Definition py_getitem (o : option node) (key : string) : result attr_value :=
  match o with
  | None => Raise (Exn "TypeError" ["'NoneType' object is not subscriptable"])
  | Some (Tag _ a _) =>
      match a !! key with
      | Some v => Ok v
      | None => Raise (Exn "KeyError" [key])
      end
  | Some _ => Raise (Exn "TypeError" ["string indices must be integers"])
  end.

(** [v.strip()] on an attribute value; [strip] is Python's [str.strip]. *)
Definition py_strip (strip : string -> string) (v : attr_value) : result string :=
  match v with
  | AStr s => Ok (strip s)
  | AList _ => Raise (Exn "AttributeError" ["'list' object has no attribute 'strip'"])
  end.

(** [l[i]] on a list. *)
Definition list_getitem {A} (l : list A) (i : nat) : result A :=
  match l !! i with
  | Some x => Ok x
  | None => Raise (Exn "IndexError" ["list index out of range"])
  end.

(** ** Job records *)

(** The value of a field: a string, or a list of strings for the two
    fields filled by a list comprehension. *)
Inductive value :=
| VStr (s : string)
| VList (l : list string).

#[global] Instance value_eq_dec : EqDecision value.
Proof. solve_decision. Defined.

Abbreviation record := (gmap string value).

(** [data[k] = v]. *)
Definition setitem (k : string) (v : value) : Py record unit :=
  fun data => (Ok tt, <[k := v]> data).

(** The 25 keys of the dictionary literal of [parse_job], in its order. *)
Definition fields : list string :=
  [ "公司名稱"; "工作職稱"; "工作內容";
    "職務類別"; "工作待遇"; "工作性質"; "上班地點"; "管理責任"; "出差外派";
    "上班時段"; "休假制度"; "可上班日"; "需求人數";
    "接受身份"; "工作經歷"; "學歷要求"; "科系要求"; "語文條件"; "擅長工具";
    "工作技能"; "其他條件";
    "公司福利"; "聯絡人"; "聯絡方式"; "連結路徑" ].

(** The dictionary literal itself: every key maps to the placeholder. *)
Definition initial_data : record :=
  list_to_map (map (fun k => (k, VStr "無")) fields).

Definition description_set : list string :=
  [ "職務類別"; "工作待遇"; "工作性質"; "上班地點";
    "管理責任"; "出差外派"; "上班時段"; "休假制度"; "可上班日"; "需求人數" ].

Definition requirement_set : list string :=
  [ "接受身份"; "工作經歷"; "學歷要求";
    "科系要求"; "語文條件"; "擅長工具"; "工作技能" ].

Definition contact_set : list string := [ "聯絡人"; "聯絡方式" ].

(** ** The outside world *)

(** What the program asks of a browser: [driver.get(url)], or
    [driver.find_element_by_class_name(c).click()]. *)
Inductive action :=
| Navigate (url : string)
| Click (class_name : string).

(** What one action leads to: the exception it raises, if any, the page
    source and the address the driver holds afterwards, and whether the
    element the following wait looks for becomes visible within the 100
    seconds of the wait. *)
Record response := Response {
  resp_error : option exn;
  resp_page : string;
  resp_url : string;
  resp_visible : bool
}.

Record Env := {
  (** [str.strip] *)
  strip : string -> string;
  (** [BeautifulSoup(page_source, "html.parser")] *)
  html_parser : string -> node;
  (** the answer to the [k]-th browser action of the run *)
  web : nat -> action -> response;
  (** the pool worker that runs the [i]-th task of an [imap] *)
  worker_of : nat -> nat;
  (** [traceback.extract_tb(tb)[-1]]: file, line and function of the last
      frame of the raise *)
  last_call_stack : exn -> string * N * string
}.

(** A browser with its [WebDriverWait]. *)
Record Driver := {
  page_source : string;
  current_url : string;
  located_visible : bool
}.

Definition driver_after (r : response) : Driver :=
  {| page_source := resp_page r;
     current_url := resp_url r;
     located_visible := resp_visible r |}.

(** The module globals of one operating-system process: [error_log], a
    list of [[job_url, errMsg]] pairs, and the [driver]/[wait] attributes
    of [threadLocal]. *)
Record Process := {
  error_log : list (string * string);
  threadLocal : option Driver
}.

(** The state [parse_job] runs in: the globals of the process that calls
    it, and the number of browser actions made so far by the whole run. *)
Abbreviation State := (Process * nat)%type.

Definition timeout_exception : exn := Exn "TimeoutException" [""; "None"; "None"].

(** [wait.until(changed and visibility_of_element_located(...))]: the
    argument is evaluated before the call, so [until] receives [False]
    when [changed] is false and fails on calling it. *)
Definition wait_until (changed : bool) (d : Driver) : result unit :=
  if changed then
    if located_visible d then Ok tt else Raise timeout_exception
  else Raise (Exn "TypeError" ["'bool' object is not callable"]).

Section Crawler.

Variable env : Env.

(** *** [get_driver_wait]

    Starting the browser and its first navigation are one step here: a
    browser that cannot start is a first navigation that raises. *)
Definition get_driver_wait : Py State Driver :=
  fun st =>
    let (p, k) := st in
    match threadLocal p with
    | Some d => (Ok d, st)
    | None =>
        let r := web env k (Navigate "https://www.google.com") in
        match resp_error r with
        | Some e => (Raise e, (p, S k))
        | None =>
            let d := driver_after r in
            (Ok d, ({| error_log := error_log p; threadLocal := Some d |}, S k))
        end
    end.

(** [driver.get(url)] on the driver of [threadLocal]; the new state of the
    driver is returned as well. *)
Definition driver_get (url : string) : Py State Driver :=
  fun st =>
    let (p, k) := st in
    let r := web env k (Navigate url) in
    let d := driver_after r in
    let st' := ({| error_log := error_log p; threadLocal := Some d |}, S k) in
    match resp_error r with
    | Some e => (Raise e, st')
    | None => (Ok d, st')
    end.

(** [error_log.append(entry)]. *)
Definition error_log_append (entry : string * string) : Py State unit :=
  fun st =>
    let (p, k) := st in
    (Ok tt, ({| error_log := app (error_log p) [entry];
                threadLocal := threadLocal p |}, k)).

(** *** [parse_job], lines 70 to 77: from the address to the soup

    The driver holds one page source between two navigations, so the three
    reads of [driver.page_source] after [driver.get] see the same text. *)
Definition load_page (job_url : string) : Py State node :=
  do driver <- get_driver_wait;
  let previous_page := page_source driver in
  do driver <- driver_get job_url;
  lift (wait_until (negb (bool_decide (page_source driver = previous_page))) driver) ;;
  ret (html_parser env (page_source driver)).

(** *** [parse_job], lines 78 to 139: from the soup to the record *)

Definition stripped_text (n : node) : string := strip env (text n).

(** Lines 84 to 89: the three fields every page must have. *)
Definition fill_required (soup : node) : Py record unit :=
  do a <- lift (py_find (Some soup) "a" [("data-gtm-head", "公司名稱")]);
  do t <- lift (py_getitem a "title");
  do s <- lift (py_strip (strip env) t);
  setitem "公司名稱" (VStr s) ;;
  do h <- lift (py_find (Some soup) "div" [("class", "job-header__title")]);
  do h1 <- lift (py_find h "h1" []);
  do t <- lift (py_getitem h1 "title");
  do s <- lift (py_strip (strip env) t);
  setitem "工作職稱" (VStr s) ;;
  do c <- lift (py_find (Some soup) "p" [("class", "job-description__content")]);
  do t <- lift (py_text c);
  setitem "工作內容" (VStr (strip env t)).

(** Lines 94 to 103: one row of the job-description table. *)
Definition description_item (item : node) : Py record unit :=
  do h3 <- lift (py_find (Some item) "h3" []);
  do t <- lift (py_text h3);
  let col := strip env t in
  if bool_decide (col ∈ description_set) then
    if bool_decide (col = "職務類別") then
      setitem col (VList (map stripped_text (find_all item "u" [])))
    else if bool_decide (col = "工作待遇") then
      setitem col (VStr (join " " (map stripped_text (find_all item "p" []))))
    else
      do p <- lift (py_find (Some item) "p" []);
      do t <- lift (py_text p);
      setitem col (VStr (strip env t))
  else ret tt.

(** Lines 91 to 103. *)
Definition fill_description (soup : node) : Py record unit :=
  do table <- lift (py_find (Some soup) "div" [("class", "job-description-table row")]);
  do items <- lift (py_find_all table "div" [("class", "row mb-2")]);
  for_each items description_item.

(** Lines 108 to 114: one row of the job-requirement table. *)
Definition requirement_item (item : node) : Py record unit :=
  do h3 <- lift (py_find (Some item) "h3" []);
  do t <- lift (py_text h3);
  let col := strip env t in
  if bool_decide (col ∈ requirement_set) then
    if bool_decide (col = "接受身份") then
      setitem col
        (VList (List.filter (fun s => negb (bool_decide (s = "、")))
                  (map stripped_text (find_all item "span" []))))
    else
      do p <- lift (py_find (Some item) "p" []);
      do t <- lift (py_text p);
      setitem col (VStr (strip env t))
  else ret tt.

(** Lines 105 to 114. *)
Definition fill_requirement (soup : node) : Py record unit :=
  do table <- lift (py_find (Some soup) "div" [("class", "job-requirement-table row")]);
  do items <- lift (py_find_all table "div" [("class", "row mb-2")]);
  for_each items requirement_item.

(** Lines 116 to 120. *)
Definition fill_other (soup : node) : Py record unit :=
  try_pass
    (do block <- lift (py_find (Some soup) "div" [("class", "job-requirement col opened")]);
     do p <- lift (py_find block "p" [("class", "m-0 r3")]);
     do t <- lift (py_text p);
     setitem "其他條件" (VStr (strip env t))).

(** Lines 121 to 125. *)
Definition fill_benefits (soup : node) : Py record unit :=
  try_pass
    (do block <- lift (py_find (Some soup) "div" [("class", "row benefits-description")]);
     do p <- lift (py_find block "p" []);
     do t <- lift (py_text p);
     setitem "公司福利" (VStr (strip env t))).

(** Lines 127 to 136. *)
Definition fill_contact (soup : node) : Py record unit :=
  try_pass
    (do contact_table <- lift (py_find (Some soup) "div" [("class", "row job-contact-table")]);
     do cells <- lift (py_find_all contact_table "div"
                  [("class", "col p-0 job-contact-table__data t3 mb-0 text-break")]);
     let info := map stripped_text cells in
     for_each (seq 0 (length info))
       (fun i =>
          do v <- lift (list_getitem info i);
          do k <- lift (list_getitem contact_set i);
          setitem k (VStr v))).

(** Lines 78 to 139, run on the dictionary literal. *)
Definition extract (soup : node) (job_url : string) : result record :=
  match
    (fill_required soup ;;
     fill_description soup ;;
     fill_requirement soup ;;
     fill_other soup ;;
     fill_benefits soup ;;
     fill_contact soup ;;
     setitem "連結路徑" (VStr job_url)) initial_data
  with
  | (Ok _, data) => Ok data
  | (Raise e, _) => Raise e
  end.

(** *** [parse_job], lines 141 to 152: the handler *)

Definition quote : string := String "034"%char "".

Definition handle_error (job_url : string) (e : exn) : Py State (option record) :=
  let error_class := exc_class e in
  do detail <- lift (match exc_args e with
                     | a :: _ => Ok a
                     | [] => Raise (Exn "IndexError" ["tuple index out of range"])
                     end);
  let '(fileName, lineNum, funcName) := last_call_stack env e in
  let errMsg :=
    "File " +:+ quote +:+ fileName +:+ quote +:+ ", line " +:+ pretty lineNum
    +:+ ", in " +:+ funcName +:+ ": [" +:+ error_class +:+ "] " +:+ detail in
  error_log_append (job_url, errMsg) ;;
  ret None.

(** *** [parse_job] *)
Definition parse_job (job_url : string) : Py State (option record) :=
  try_except
    (do soup <- load_page job_url;
     do data <- lift (extract soup job_url);
     ret (Some data))
    (handle_error job_url).

(** *** [get_job_urls] *)

(** ["https://" + href[2:]]. *)
Definition https_link (href : attr_value) : result string :=
  match href with
  | AStr s => Ok ("https://" +:+ str_drop 2 s)
  | AList _ => Raise (Exn "TypeError" ["can only concatenate str (not 'list') to str"])
  end.

Definition get_job_urls (page_source : string) : result (list string) :=
  let soup := html_parser env page_source in
  match
    for_each (find_all soup "article" [("class", "js-job-item")])
      (fun job =>
         do a <- lift (py_find (Some job) "a" [("class", "js-job-link")]);
         do href <- lift (py_getitem a "href");
         do job_url <- lift (https_link href);
         fun job_urls => (Ok tt, app job_urls [job_url])) []
  with
  | (Ok _, job_urls) => Ok job_urls
  | (Raise e, _) => Raise e
  end.

(** *** [main], lines 188 to 194: the listing pages *)

(** The listing driver of [main], the count of browser actions, and the
    list [page_sources]. *)
Record Listing := {
  driver : Driver;
  clock : nat;
  page_sources : list string
}.

(** [range(n)]. *)
Definition range (n : Z) : list Z := map Z.of_nat (seq 0 (Z.to_nat n)).

(** [page_sources.append(driver.page_source)]. *)
Definition append_page_source : Py Listing unit :=
  fun l =>
    (Ok tt, {| driver := driver l; clock := clock l;
               page_sources := app (page_sources l) [page_source (driver l)] |}).

(** [driver.find_element_by_class_name('js-next-page').click()]. *)
Definition click_next_page : Py Listing unit :=
  fun l =>
    let r := web env (clock l) (Click "js-next-page") in
    let l' := {| driver := driver_after r; clock := S (clock l);
                 page_sources := page_sources l |} in
    match resp_error r with
    | Some e => (Raise e, l')
    | None => (Ok tt, l')
    end.

(** Lines 192 and 193. *)
Definition wait_next_page : Py Listing unit :=
  fun l =>
    (wait_until
       (negb (bool_decide (Some (current_url (driver l)) = last (page_sources l))))
       (driver l), l).

Definition collect_page_sources (n_pages : Z) : Py Listing unit :=
  for_each (range (n_pages - 2))
    (fun _ => append_page_source ;; click_next_page ;; wait_next_page) ;;
  append_page_source.

(** *** [multiprocessing.Pool] *)

(** The tasks of an [imap], from the [i]-th on. Every pool worker is a
    process of its own: a task reads and writes the globals of the worker
    it runs on. The browser actions of all workers are counted together. *)
Fixpoint run_tasks {A B} (f : A -> Py State B) (i : nat) (tasks : list A)
    (workers : nat -> Process) (k : nat) : result (list B) * (nat -> Process) * nat :=
  match tasks with
  | [] => (Ok [], workers, k)
  | x :: tasks' =>
      let j := worker_of env i in
      match f x (workers j, k) with
      | (Ok y, (p, k')) =>
          match run_tasks f (S i) tasks' (<[j := p]> workers) k' with
          | (Ok ys, ws, k'') => (Ok (y :: ys), ws, k'')
          | (Raise e, ws, k'') => (Raise e, ws, k'')
          end
      | (Raise e, (p, k')) => (Raise e, <[j := p]> workers, k')
      end
  end.

(** [with Pool(...) as p: list(p.imap(f, tasks))] in the parent: the
    workers start as copies of the parent and end with the pool; the
    results come back in the order of the tasks; an exception of a task is
    raised again in the parent. The globals of the parent stay as they
    were. *)
Definition pool_imap {A B} (f : A -> Py State B) (tasks : list A) : Py State (list B) :=
  fun st =>
    let (parent, k) := st in
    match run_tasks f 0 tasks (fun _ => parent) k with
    | (r, _, k') => (r, (parent, k'))
    end.

(** *** [main], lines 198 to 217: links, records and the retry *)

(** Lines 209 to 213. [data] is the list the loop appends to. *)
Definition retry_errors (data : list (option record)) : Py State (list (option record)) :=
  do logs <- (fun st => (Ok (error_log st.1), st));
  if (0 <? length logs)%nat then
    fun st =>
      match
        for_each logs
          (fun log sd =>
             match parse_job log.1 sd.1 with
             | (Ok job, st') => (Ok tt, (st', app sd.2 [job]))
             | (Raise e, st') => (Raise e, (st', sd.2))
             end) (st, data)
      with
      | (Ok _, (st', data')) => (Ok data', st')
      | (Raise e, (st', _)) => (Raise e, st')
      end
  else ret data.

(** [[job for job in data if job is not None]]. *)
Definition not_none (data : list (option record)) : list record :=
  omap id data.

(** *** [main], lines 221 to 234: the filters and the counts *)

(** One entry of [config.filters]. *)
Record FilterRule := {
  includes : option (list string);
  excludes : option (list string)
}.

(** [token in v]: a substring when [v] is a string, an element when [v]
    is a list. *)
Definition contains (token : string) (v : value) : bool :=
  match v with
  | VStr s => str_contains token s
  | VList l => bool_decide (token ∈ l)
  end.

(** [[job for job in data if keep (job[filter_col])]]. *)
Fixpoint select (keep : value -> bool) (filter_col : string) (data : list record)
  : result (list record) :=
  match data with
  | [] => Ok []
  | job :: data' =>
      match job !! filter_col with
      | None => Raise (Exn "KeyError" [filter_col])
      | Some v =>
          match select keep filter_col data' with
          | Ok kept => Ok (if keep v then job :: kept else kept)
          | Raise e => Raise e
          end
      end
  end.

(** [data = [...]]: the comprehension replaces the list when it ends
    normally. *)
Definition rebind (f : list record -> result (list record)) : Py (list record) unit :=
  fun data =>
    match f data with
    | Ok data' => (Ok tt, data')
    | Raise e => (Raise e, data)
    end.

Definition tokens_of (o : option (list string)) : list string :=
  match o with
  | Some l => l
  | None => []
  end.

(** Lines 221 to 227. *)
Definition filter_data (filters : list (string * FilterRule)) : Py (list record) unit :=
  for_each filters
    (fun f =>
       let filter_col := f.1 in
       for_each (tokens_of (includes f.2))
         (fun token => rebind (select (contains token) filter_col)) ;;
       for_each (tokens_of (excludes f.2))
         (fun token => rebind (select (fun v => negb (contains token v)) filter_col))).

(** [company_set.add(job['公司名稱'])]. *)
Definition add_company (job : record) : Py (gset string) unit :=
  fun company_set =>
    match job !! "公司名稱" with
    | None => (Raise (Exn "KeyError" ["公司名稱"]), company_set)
    | Some (VStr s) => (Ok tt, {[ s ]} ∪ company_set)
    | Some (VList _) => (Raise (Exn "TypeError" ["unhashable type: 'list'"]), company_set)
    end.

(** The dictionary [log]. *)
Record Log := {
  total_data_count : nat;
  parsed_data_count : nat;
  filtered_data_count : nat;
  company_count : nat
}.

(** Lines 215 to 234, from the list [data] the retry leaves. *)
Definition filter_and_count (filters : list (string * FilterRule))
    (data : list (option record)) : result (list record * Log) :=
  let total := length data in
  let data := not_none data in
  let parsed := length data in
  match filter_data filters data with
  | (Raise e, _) => Raise e
  | (Ok _, data) =>
      match for_each data add_company ∅ with
      | (Raise e, _) => Raise e
      | (Ok _, company_set) =>
          Ok (data, {| total_data_count := total;
                       parsed_data_count := parsed;
                       filtered_data_count := length data;
                       company_count := size company_set |})
      end
  end.

(** Lines 198 to 234. *)
Definition crawl (filters : list (string * FilterRule)) (page_sources : list string)
  : Py State (list record * Log) :=
  do result <- pool_imap (fun src => lift (get_job_urls src)) page_sources;
  let job_urls := concat result in
  do data <- pool_imap parse_job job_urls;
  do data <- retry_errors data;
  lift (filter_and_count filters data).

End Crawler.

(** The globals as the module sets them: [error_log = []] and a fresh
    [threadLocal]. *)
Definition initial_process : Process :=
  {| error_log := []; threadLocal := None |}.

(** ** A small site to run the crawler on

    The pages below are written as document trees; their page source is
    the markup [render] prints for them, and the example parser maps that
    markup back to the tree. *)

Definition el (name : string) (attrs : list (string * attr_value)) (contents : list node)
  : node :=
  Tag name (list_to_map attrs) contents.

Definition cls (classes : list string) : string * attr_value :=
  ("class", AList classes).

Definition soup_of (contents : list node) : node := Tag "[document]" ∅ contents.

Definition render_attr (kv : string * attr_value) : string :=
  " " +:+ kv.1 +:+ "='"
  +:+ match kv.2 with AStr s => s | AList l => join " " l end +:+ "'".

Fixpoint render (n : node) : string :=
  match n with
  | Tag name attrs contents =>
      let inner := String.concat "" (map render contents) in
      if bool_decide (name = "[document]") then inner
      else "<" +:+ name +:+ String.concat "" (map render_attr (map_to_list attrs))
           +:+ ">" +:+ inner +:+ "</" +:+ name +:+ ">"
  | NavigableString s => s
  | Comment s => "<!--" +:+ s +:+ "-->"
  end.

(** [str.strip] on text whose only white space is ASCII. *)
Definition is_space (c : ascii) : bool :=
  let n := nat_of_ascii c in
  ((9 <=? n)%nat && (n <=? 13)%nat) || ((28 <=? n)%nat && (n <=? 32)%nat).

Fixpoint lstrip (s : string) : string :=
  match s with
  | String c s' => if is_space c then lstrip s' else s
  | EmptyString => ""
  end.

Fixpoint rstrip (s : string) : string :=
  match s with
  | String c s' =>
      let r := rstrip s' in
      if is_space c && bool_decide (r = "") then "" else String c r
  | EmptyString => ""
  end.

Definition ascii_strip (s : string) : string := rstrip (lstrip s).

(** The parts of a detail page. *)
Definition company_link : node :=
  el "a" [("data-gtm-head", AStr "公司名稱"); ("title", AStr "一零四資訊科技")]
    [NavigableString "一零四資訊科技"].

Definition title_block : node :=
  el "div" [cls ["job-header__title"]]
    [el "h1" [("title", AStr "軟體工程師")] [NavigableString "軟體工程師"]].

Definition description_block : node :=
  el "p" [cls ["job-description__content"]] [NavigableString " 開發求職網站 "].

Definition row (heading : string) (cells : list node) : node :=
  el "div" [cls ["row"; "mb-2"]] (el "h3" [] [NavigableString heading] :: cells).

Definition description_table (rows : list node) : node :=
  el "div" [cls ["job-description-table"; "row"]] rows.

Definition requirement_table (rows : list node) : node :=
  el "div" [cls ["job-requirement-table"; "row"]] rows.

Definition other_block : node :=
  el "div" [cls ["job-requirement"; "col"; "opened"]]
    [el "p" [cls ["m-0"; "r3"]] [NavigableString "具團隊合作精神"]].

Definition benefits_block : node :=
  el "div" [cls ["row"; "benefits-description"]]
    [el "p" [] [NavigableString "年終獎金"]].

Definition contact_cell (s : string) : node :=
  el "div" [cls ["col"; "p-0"; "job-contact-table__data"; "t3"; "mb-0"; "text-break"]]
    [NavigableString s].

Definition contact_block : node :=
  el "div" [cls ["row"; "job-contact-table"]]
    [contact_cell "王小姐"; contact_cell "02-12345678"].

Definition category_row : node :=
  row "職務類別"
    [el "u" [] [NavigableString "軟體設計工程師"]; NavigableString "、";
     el "u" [] [NavigableString "後端工程師"]].

Definition salary_row : node :=
  row "工作待遇"
    [el "p" [] [NavigableString "月薪"]; el "p" [] [NavigableString "50,000元"]].

Definition status_row : node :=
  row "接受身份"
    [el "span" [] [NavigableString "上班族"]; el "span" [] [NavigableString "、"];
     el "span" [] [NavigableString "應屆畢業生"]].

(** A page with every section. *)
Definition full_page : node :=
  soup_of
    [company_link; title_block; description_block;
     description_table
       [category_row; salary_row; row "上班地點" [el "p" [] [NavigableString "台北市"]]];
     requirement_table
       [status_row; row "工作經歷" [el "p" [] [NavigableString "2年以上"]]];
     other_block; benefits_block; contact_block].

(** The same page without the three optional sections. *)
Definition bare_page : node :=
  soup_of
    [company_link; title_block; description_block;
     description_table [category_row];
     requirement_table [status_row]].

(** A page whose title element is missing. *)
Definition untitled_page : node :=
  soup_of
    [company_link; description_block;
     description_table [category_row];
     requirement_table [status_row]].

(** A page whose category row holds a separator inside a [u] element and
    whose salary row has no [p] element. *)
Definition odd_page : node :=
  soup_of
    [company_link; title_block; description_block;
     description_table
       [row "職務類別"
          [el "u" [] [NavigableString "軟體設計工程師"];
           el "u" [] [NavigableString "、"];
           el "u" [] [NavigableString "後端工程師"]];
        row "工作待遇" []];
     requirement_table [status_row]].

(** A listing page with two job entries. *)
Definition job_item (href : string) : node :=
  el "article" [cls ["b-block--top-bord"; "job-list-item"; "js-job-item"]]
    [el "h2" []
       [el "a" [cls ["js-job-link"]; ("href", AStr href)] [NavigableString "工程師"]]].

Definition flaky_listing : node :=
  soup_of [job_item "//www.104.com.tw/job/flaky"].

Definition listing_page : node :=
  soup_of
    [el "div" [("id", AStr "js-job-content")]
       [job_item "//www.104.com.tw/job/6abc1"; job_item "//www.104.com.tw/job/6abc2"]].

Definition google_page : node :=
  soup_of [el "title" [] [NavigableString "Google"]].

Definition site_pages : list node :=
  [full_page; bare_page; untitled_page; odd_page; listing_page; flaky_listing;
   google_page].

(** The example parser: the page of the site with this markup. *)
Definition site_parser (src : string) : node :=
  default (soup_of [NavigableString src])
    (List.find (fun page => bool_decide (render page = src)) site_pages).

Definition loaded (page : node) (url : string) : response :=
  {| resp_error := None; resp_page := render page; resp_url := url;
     resp_visible := true |}.

(** The example web. The address [.../job/flaky] serves the page without
    a title during the first two browser actions of the run and the full
    page afterwards. *)
Definition site_web (k : nat) (a : action) : response :=
  match a with
  | Navigate url =>
      if bool_decide (url = "https://www.google.com") then loaded google_page url
      else if bool_decide (url = "https://www.104.com.tw/job/full") then loaded full_page url
      else if bool_decide (url = "https://www.104.com.tw/job/bare") then loaded bare_page url
      else if bool_decide (url = "https://www.104.com.tw/job/odd") then loaded odd_page url
      else if bool_decide (url = "https://www.104.com.tw/job/flaky") then
        if (k <? 2)%nat then loaded untitled_page url else loaded full_page url
      else
        {| resp_error := Some (Exn "WebDriverException" ["Reached error page"]);
           resp_page := ""; resp_url := url; resp_visible := false |}
  | Click _ =>
      {| resp_error := None;
         resp_page := "<p>page " +:+ pretty (k + 2)%nat +:+ "</p>";
         resp_url := "https://www.104.com.tw/jobs/search/?page=" +:+ pretty (k + 2)%nat;
         resp_visible := true |}
  end.

Definition site : Env :=
  {| strip := ascii_strip;
     html_parser := site_parser;
     web := site_web;
     worker_of := fun i => i;
     last_call_stack := fun _ => ("104.py", 84%N, "parse_job") |}.

(** The listing driver of [main] on the first result page, before any
    page source is collected. *)
Definition first_listing : Listing :=
  {| driver := {| page_source := "<p>page 1</p>";
                  current_url := "https://www.104.com.tw/jobs/search/?page=1";
                  located_visible := true |};
     clock := 0;
     page_sources := [] |}.

(** ** The vocabulary of the properties *)

(** [keeps I m]: [m] preserves [I] however it ends. *)
Definition keeps {S A} (I : S -> Prop) (m : Py S A) : Prop :=
  forall s, I s -> I (m s).2.

(** [args_ok r]: if [r] is an exception, its [args] are not empty. *)
Definition args_ok {A} (r : result A) : Prop :=
  match r with
  | Ok _ => True
  | Raise e => exc_args e <> []
  end.

(** [sound m]: every exception [m] raises has [args]. *)
Definition sound {S A} (m : Py S A) : Prop :=
  forall s, args_ok (m s).1.

(** The record of a run of [parse_job], for runs that return one. *)
Definition record_of (run : result (option record) * State) : record :=
  match run.1 with
  | Ok (Some data) => data
  | _ => ∅
  end.

(** The exceptions of the browser are the only ones this program does not
    make itself. *)
Definition browser_args_ok (env : Env) : Prop :=
  forall k a e, resp_error (web env k a) = Some e -> exc_args e <> [].

(** The [try] block of [parse_job], lines 70 to 139, up to the value the
    [return] of line 139 hands out. *)
Definition try_block (env : Env) (job_url : string) : Py State record :=
  do soup <- load_page env job_url;
  lift (extract env soup job_url).

(** The message of lines 144 to 150 for an exception [e] whose [args]
    start with [detail]. *)
Definition errMsg (env : Env) (e : exn) (detail : string) : string :=
  let '(fileName, lineNum, funcName) := last_call_stack env e in
  "File " +:+ quote +:+ fileName +:+ quote +:+ ", line " +:+ pretty lineNum
  +:+ ", in " +:+ funcName +:+ ": [" +:+ exc_class e +:+ "] " +:+ detail.

(** [st] with one more entry in [error_log]. *)
Definition logged (st : State) (entry : string * string) : State :=
  ({| error_log := (error_log st.1 ++ [entry])%list; threadLocal := threadLocal st.1 |},
   st.2).

Definition required_keys : list string := [ "公司名稱"; "工作職稱"; "工作內容" ].

Definition description_rows (soup : node) : list node :=
  match find soup "div" [("class", "job-description-table row")] with
  | Some table => find_all table "div" [("class", "row mb-2")]
  | None => []
  end.

Definition requirement_rows (soup : node) : list node :=
  match find soup "div" [("class", "job-requirement-table row")] with
  | Some table => find_all table "div" [("class", "row mb-2")]
  | None => []
  end.

Definition other_section (soup : node) : option node :=
  find soup "div" [("class", "job-requirement col opened")].

Definition benefits_section (soup : node) : option node :=
  find soup "div" [("class", "row benefits-description")].

Definition contact_section (soup : node) : option node :=
  find soup "div" [("class", "row job-contact-table")].

(** The stripped text of the [h3] of a table row. *)
Definition heading (env : Env) (item : node) : option string :=
  match find item "h3" [] with
  | Some h3 => Some (strip env (text h3))
  | None => None
  end.

(** The keys the statements of [extract] can assign on this soup. *)
Definition may_write (env : Env) (soup : node) (k : string) : Prop :=
  k ∈ required_keys \/ k = "連結路徑" \/
  (k ∈ description_set /\
   exists item, item ∈ description_rows soup /\ heading env item = Some k) \/
  (k ∈ requirement_set /\
   exists item, item ∈ requirement_rows soup /\ heading env item = Some k) \/
  (k = "其他條件" /\ other_section soup <> None) \/
  (k = "公司福利" /\ benefits_section soup <> None) \/
  (k ∈ contact_set /\ contact_section soup <> None).

(** The text lines 117-118 and 122-123 look for. *)
Definition other_text (env : Env) (soup : node) : option string :=
  match other_section soup with
  | Some block =>
      match find block "p" [("class", "m-0 r3")] with
      | Some p => Some (stripped_text env p)
      | None => None
      end
  | None => None
  end.

Definition benefits_text (env : Env) (soup : node) : option string :=
  match benefits_section soup with
  | Some block =>
      match find block "p" [] with
      | Some p => Some (stripped_text env p)
      | None => None
      end
  | None => None
  end.

(** The list [info] of line 131. *)
Definition contact_info (env : Env) (soup : node) : list string :=
  match contact_section soup with
  | Some table =>
      map (stripped_text env)
        (find_all table "div"
           [("class", "col p-0 job-contact-table__data t3 mb-0 text-break")])
  | None => []
  end.

(** The keys an assignment of [extract] is run for on this soup, when
    [extract] runs through: the three required keys and the URL always, a
    column of one of the two tables when a row has it as its heading, the
    other-conditions and the benefits key when the paragraph looked for is
    there, and [contact_set[i]] for every index [i] of [info]. *)
Definition resolved (env : Env) (soup : node) (k : string) : Prop :=
  k ∈ required_keys \/ k = "連結路徑" \/
  (k ∈ description_set /\
   exists item, item ∈ description_rows soup /\ heading env item = Some k) \/
  (k ∈ requirement_set /\
   exists item, item ∈ requirement_rows soup /\ heading env item = Some k) \/
  (k = "其他條件" /\ other_text env soup <> None) \/
  (k = "公司福利" /\ benefits_text env soup <> None) \/
  (exists i, contact_set !! i = Some k /\ (i < length (contact_info env soup))%nat).

(** The soup [parse_job] worked on, read back from the state it leaves:
    the parse of what the driver of the process shows. *)
Definition page_soup (env : Env) (st : State) : node :=
  match threadLocal st.1 with
  | Some d => html_parser env (page_source d)
  | None => soup_of []
  end.

(** C4, as stated: every field of every record is present and is neither
    empty nor null. *)
Definition every_field_filled (data : record) : Prop :=
  forall k, k ∈ fields ->
    exists v, data !! k = Some v /\ v <> VStr "" /\ v <> VList [].

(** The state of the record after lines 84 to 114. *)
Definition after_tables (env : Env) (soup : node) : result unit * record :=
  (fill_required env soup ;; fill_description env soup ;; fill_requirement env soup)
    initial_data.

(** The two fields [parse_job] fills with a list comprehension: the key,
    the table the row is looked up in, and the list the comprehension
    builds from the row. *)
Inductive list_field := Category | AcceptedStatus.

Definition list_field_key (f : list_field) : string :=
  match f with
  | Category => "職務類別"
  | AcceptedStatus => "接受身份"
  end.

Definition list_field_rows (f : list_field) (soup : node) : list node :=
  match f with
  | Category => description_rows soup
  | AcceptedStatus => requirement_rows soup
  end.

Definition list_field_value (env : Env) (f : list_field) (item : node) : list string :=
  match f with
  | Category => map (stripped_text env) (find_all item "u" [])
  | AcceptedStatus =>
      List.filter (fun s => negb (bool_decide (s = "、")))
        (map (stripped_text env) (find_all item "span" []))
  end.

(** C7, as stated: neither list holds the separator. *)
Definition separators_filtered (data : record) : Prop :=
  forall f l, data !! list_field_key f = Some (VList l) -> "、" ∉ l.

Definition job_entries (soup : node) : list node :=
  find_all soup "article" [("class", "js-job-item")].

(** [url] is the link of the listing entry [job]: the [href] of its first
    [js-job-link] anchor without its first two characters, after
    ["https://"]. *)
Definition entry_link (job : node) (url : string) : Prop :=
  exists a href,
    find job "a" [("class", "js-job-link")] = Some a /\
    node_attrs a !! "href" = Some (AStr href) /\
    url = "https://" +:+ str_drop 2 href.

(** The example site with no web at all and another spreading of the
    tasks over the workers. *)
Definition offline_site : Env :=
  {| strip := ascii_strip;
     html_parser := site_parser;
     web := fun _ _ =>
       {| resp_error := Some (Exn "WebDriverException" ["offline"]);
          resp_page := ""; resp_url := ""; resp_visible := false |};
     worker_of := fun i => i mod 2;
     last_call_stack := fun _ => ("", 0%N, "") |}.

(** A page whose other-conditions block has no paragraph of class
    [m-0 r3], whose benefits block is empty and whose contact table has
    one cell. *)
Definition partial_page : node :=
  soup_of
    [company_link; title_block; description_block;
     description_table [category_row];
     requirement_table [status_row];
     el "div" [cls ["job-requirement"; "col"; "opened"]]
       [el "p" [] [NavigableString "具團隊合作精神"]];
     el "div" [cls ["row"; "benefits-description"]] [];
     el "div" [cls ["row"; "job-contact-table"]] [contact_cell "王小姐"]].

(** A site that serves this page under every address but the one the
    browser starts on. *)
Definition partial_site : Env :=
  {| strip := ascii_strip;
     html_parser := fun src =>
       if bool_decide (src = render partial_page) then partial_page
       else soup_of [NavigableString src];
     web := fun _ a =>
       match a with
       | Navigate url =>
           if bool_decide (url = "https://www.google.com") then loaded google_page url
           else loaded partial_page url
       | Click _ => loaded google_page ""
       end;
     worker_of := fun i => i;
     last_call_stack := fun _ => ("104.py", 84%N, "parse_job") |}.

(** The value of a result that is not an exception. *)
Definition result_get {A} (default : A) (r : result A) : A :=
  match r with
  | Ok a => a
  | Raise _ => default
  end.

Definition empty_log : Log :=
  {| total_data_count := 0; parsed_data_count := 0;
     filtered_data_count := 0; company_count := 0 |}.

(** Two records of the same company, and a failure between them. *)
Definition sample_data : list (option record) :=
  [ Some (record_of (parse_job site "https://www.104.com.tw/job/full" (initial_process, 0)));
    None;
    Some (record_of (parse_job site "https://www.104.com.tw/job/bare" (initial_process, 0))) ].

(** The test one comprehension applies to a record: [keep] on the value
    under [filter_col]. *)
Definition field_test (keep : value -> bool) (filter_col : string) (job : record) : bool :=
  match job !! filter_col with
  | Some v => keep v
  | None => true
  end.

(** A record passes an entry of [config.filters] when its field holds
    every include token and no exclude token, in the sense of [contains]. *)
Definition passes_rule (job : record) (f : string * FilterRule) : bool :=
  forallb (fun token => field_test (contains token) f.1 job) (tokens_of (includes f.2))
  && forallb (fun token => field_test (fun v => negb (contains token v)) f.1 job)
       (tokens_of (excludes f.2)).

Definition passes (filters : list (string * FilterRule)) (job : record) : bool :=
  forallb (passes_rule job) filters.

Definition has_column (filter_col : string) (data : list record) : Prop :=
  forall job, job ∈ data -> is_Some (job !! filter_col).

(** C3, as stated: the token is looked for as a substring of the field,
    for a list-valued field as a substring of one of its elements. *)
Definition substring_contains (token : string) (v : value) : bool :=
  match v with
  | VStr s => str_contains token s
  | VList l => existsb (str_contains token) l
  end.

Definition substring_passes (filters : list (string * FilterRule)) (job : record) : bool :=
  forallb
    (fun f : string * FilterRule =>
       forallb (fun token => field_test (substring_contains token) f.1 job)
         (tokens_of (includes f.2))
       && forallb (fun token => field_test (fun v => negb (substring_contains token v)) f.1 job)
            (tokens_of (excludes f.2)))
    filters.

Definition engineer_only : list (string * FilterRule) :=
  [ ("職務類別", {| includes := Some ["工程師"]; excludes := None |}) ].

Definition no_engineer : list (string * FilterRule) :=
  [ ("職務類別", {| includes := None; excludes := Some ["工程師"] |}) ].


(** ** The vocabulary of the further properties *)

(** The three elements lines 84 to 89 read. *)
Definition company_anchor (soup : node) : option node :=
  find soup "a" [("data-gtm-head", "公司名稱")].

Definition title_heading (soup : node) : option node :=
  match find soup "div" [("class", "job-header__title")] with
  | Some header => find header "h1" []
  | None => None
  end.

Definition description_paragraph (soup : node) : option node :=
  find soup "p" [("class", "job-description__content")].

(** The [title] attribute of an element, when it has one that is a string. *)
Definition title_of (o : option node) : option string :=
  match o with
  | Some n =>
      match node_attrs n !! "title" with
      | Some (AStr s) => Some s
      | _ => None
      end
  | None => None
  end.

(** The table a column of [description_set] or [requirement_set] is
    looked up in. *)
Definition column_rows (col : string) (soup : node) : list node :=
  if bool_decide (col ∈ description_set) then description_rows soup
  else requirement_rows soup.

(** What a row gives for a column other than the two list-valued ones:
    for the salary the texts of all [p] elements joined by single spaces,
    otherwise the text of the first [p] element. *)
Definition column_value (env : Env) (col : string) (item : node) : option value :=
  if bool_decide (col = "工作待遇") then
    Some (VStr (join " " (map (stripped_text env) (find_all item "p" []))))
  else
    match find item "p" [] with
    | Some p => Some (VStr (stripped_text env p))
    | None => None
    end.

(** The keys assigned after line 89. *)
Definition later_keys : list string :=
  (description_set ++ requirement_set
   ++ ["其他條件"; "公司福利"; "聯絡人"; "聯絡方式"; "連結路徑"])%list.

(** A row of the description table [description_item] runs through on: it
    has a heading and, if the heading is a plain column of
    [description_set], a [p] element. *)
Definition description_row_ok (env : Env) (item : node) : Prop :=
  exists col,
    heading env item = Some col /\
    (col ∈ description_set -> col <> "職務類別" -> col <> "工作待遇" ->
     find item "p" [] <> None).

(** The same for the requirement table and [requirement_item]. *)
Definition requirement_row_ok (env : Env) (item : node) : Prop :=
  exists col,
    heading env item = Some col /\
    (col ∈ requirement_set -> col <> "接受身份" -> find item "p" [] <> None).

(** The pages lines 84 to 114 run through on. *)
Definition page_ok (env : Env) (soup : node) : Prop :=
  title_of (company_anchor soup) <> None /\
  title_of (title_heading soup) <> None /\
  description_paragraph soup <> None /\
  find soup "div" [("class", "job-description-table row")] <> None /\
  Forall (description_row_ok env) (description_rows soup) /\
  find soup "div" [("class", "job-requirement-table row")] <> None /\
  Forall (requirement_row_ok env) (requirement_rows soup).

(** The first browser action of [parse_job]: the start of the browser in a
    process that has none, the navigation to the job otherwise. *)
Definition first_action (st : State) (job_url : string) : action :=
  match threadLocal st.1 with
  | Some _ => Navigate job_url
  | None => Navigate "https://www.google.com"
  end.

(** A site whose browser fails without saying why. *)
Definition mute_site : Env :=
  {| strip := ascii_strip;
     html_parser := site_parser;
     web := fun _ _ =>
       {| resp_error := Some (Exn "WebDriverException" []);
          resp_page := ""; resp_url := ""; resp_visible := false |};
     worker_of := fun i => i;
     last_call_stack := fun _ => ("104.py", 72%N, "parse_job") |}.

(** The state of a process and of the count of browser actions after the
    action that gave [r]. *)
Definition navigated (st : State) (r : response) : State :=
  ({| error_log := error_log st.1; threadLocal := Some (driver_after r) |}, S st.2).

(** The link [get_job_urls] makes of one job entry, when the entry has an
    anchor of class [js-job-link] with an [href]. *)
Definition link_of (job : node) : option string :=
  match find job "a" [("class", "js-job-link")] with
  | Some a =>
      match node_attrs a !! "href" with
      | Some (AStr href) => Some ("https://" +:+ str_drop 2 href)
      | _ => None
      end
  | None => None
  end.

(** The links of all entries, if every entry has one. *)
Fixpoint links_of (jobs : list node) : option (list string) :=
  match jobs with
  | [] => Some []
  | job :: jobs' =>
      match link_of job, links_of jobs' with
      | Some url, Some urls => Some (url :: urls)
      | _, _ => None
      end
  end.

(** The results of [g] on the tasks, in their order, or the first
    exception. *)
Fixpoint results_of {A B} (g : A -> result B) (tasks : list A) : result (list B) :=
  match tasks with
  | [] => Ok []
  | x :: tasks' =>
      match g x with
      | Ok y =>
          match results_of g tasks' with
          | Ok ys => Ok (y :: ys)
          | Raise e => Raise e
          end
      | Raise e => Raise e
      end
  end.

(** [job] is a record [parse_job] can return. *)
Definition extracted (env : Env) (job : record) : Prop :=
  exists job_url st st', parse_job env job_url st = (Ok (Some job), st').

(** ** [main], lines 183 and 184: the page count *)

(** [s.split(' ')]. *)
Fixpoint split_space (s : string) : list string :=
  match s with
  | EmptyString => [""]
  | String c s' =>
      if bool_decide (c = " "%char) then "" :: split_space s'
      else
        match split_space s' with
        | w :: ws => String c w :: ws
        | [] => [String c ""]
        end
  end.

(** [l[-2]]. *)
Definition second_to_last {A} (l : list A) : result A :=
  if (length l <? 2)%nat then Raise (Exn "IndexError" ["list index out of range"])
  else list_getitem l (length l - 2).

Definition and_then {A B} (r : result A) (k : A -> result B) : result B :=
  match r with
  | Ok a => k a
  | Raise e => Raise e
  end.

(** [int(soup.find("select", attrs={"class": "page-select"})
         .find("option").text.split(' ')[-2])]; [int] is Python's [int] on
    a string. *)
Definition page_count (int : string -> result Z) (soup : node) : result Z :=
  and_then (py_find (Some soup) "select" [("class", "page-select")]) (fun select =>
  and_then (py_find select "option" []) (fun option =>
  and_then (py_text option) (fun text =>
  and_then (second_to_last (split_space text)) int))).

(** The text of the first option of the page-select control. *)
Definition page_select_text (soup : node) : option string :=
  match find soup "select" [("class", "page-select")] with
  | Some select =>
      match find select "option" [] with
      | Some option => Some (text option)
      | None => None
      end
  | None => None
  end.

Fixpoint has_space (s : string) : bool :=
  match s with
  | EmptyString => false
  | String c s' => bool_decide (c = " "%char) || has_space s'
  end.

(** A search page whose page-select control says page 1 of 3. *)
Definition search_page : node :=
  soup_of
    [el "select" [cls ["page-select"; "js-paging-select"]]
       [el "option" [("value", AStr "1")] [NavigableString "第 1 / 3 頁"];
        el "option" [("value", AStr "2")] [NavigableString "第 2 / 3 頁"]]].

(** [int] on the strings this example needs. *)
Definition small_int (s : string) : result Z :=
  if bool_decide (s = "3") then Ok 3%Z
  else Raise (Exn "ValueError" ["invalid literal for int() with base 10: '" +:+ s +:+ "'"]).

(** Records written by hand, for the properties that need no page. *)
Definition plain_record (company : string) (category : list string) : record :=
  <["職務類別" := VList category]> (<["公司名稱" := VStr company]> initial_data).

Definition plain_data : list (option record) :=
  [ Some (plain_record "甲公司" ["軟體設計工程師"; "後端工程師"]);
    None;
    Some (plain_record "乙公司" ["工程師"]) ].

(** * Properties *)

(** ** Two judgements on [Py] programs *)

Create HintDb py discriminated.

Section Judgements.

Context {S : Type}.

Lemma bind_ok {A B} (m : Py S A) (k : A -> Py S B) s b s' :
  bind m k s = (Ok b, s') ->
  exists a s1, m s = (Ok a, s1) /\ k a s1 = (Ok b, s').
Proof.
  unfold bind. destruct (m s) as [[a | e] s1]; intros H.
  - exists a, s1. split; [reflexivity | exact H].
  - discriminate H.
Qed.

Lemma lift_ok {A} (r : result A) (s : S) a s' :
  lift r s = (Ok a, s') -> r = Ok a /\ s' = s.
Proof. unfold lift. intros H. inversion H. split; reflexivity. Qed.

Lemma keeps_ret {A} (I : S -> Prop) (a : A) : keeps I (ret a).
Proof. intros s H. exact H. Qed.

Lemma keeps_lift {A} (I : S -> Prop) (r : result A) : keeps I (lift r).
Proof. intros s H. exact H. Qed.

Lemma keeps_bind {A B} (I : S -> Prop) (m : Py S A) (k : A -> Py S B) :
  keeps I m -> (forall a, keeps I (k a)) -> keeps I (bind m k).
Proof.
  intros Hm Hk s HI. unfold bind.
  specialize (Hm s HI). destruct (m s) as [[a | e] s1]; simpl in *.
  - apply Hk. exact Hm.
  - exact Hm.
Qed.

Lemma keeps_for_each {A} (I : S -> Prop) (l : list A) (body : A -> Py S unit) :
  (forall x, x ∈ l -> keeps I (body x)) -> keeps I (for_each l body).
Proof.
  induction l as [| x l IH]; intros Hb; simpl.
  - apply keeps_ret.
  - apply keeps_bind.
    + apply Hb. left.
    + intros _. apply IH. intros y Hy. apply Hb. right. exact Hy.
Qed.

Lemma keeps_try_pass (I : S -> Prop) (body : Py S unit) :
  keeps I body -> keeps I (try_pass body).
Proof.
  intros Hb s HI. unfold try_pass, try_except.
  specialize (Hb s HI). destruct (body s) as [[a | e] s1]; exact Hb.
Qed.

Lemma sound_ret {A} (a : A) : sound (S := S) (ret a).
Proof. intros s. exact I. Qed.

Lemma sound_lift {A} (r : result A) : args_ok r -> sound (S := S) (lift r).
Proof. intros H s. exact H. Qed.

Lemma sound_bind {A B} (m : Py S A) (k : A -> Py S B) :
  sound m -> (forall a, sound (k a)) -> sound (bind m k).
Proof.
  intros Hm Hk s. unfold bind.
  specialize (Hm s). destruct (m s) as [[a | e] s1]; simpl in *.
  - apply Hk.
  - exact Hm.
Qed.

Lemma sound_for_each {A} (l : list A) (body : A -> Py S unit) :
  (forall x, sound (body x)) -> sound (for_each l body).
Proof.
  intros Hb. induction l as [| x l IH]; simpl.
  - apply sound_ret.
  - apply sound_bind; [apply Hb | intros _; exact IH].
Qed.

Lemma sound_try_pass (body : Py S unit) : sound (try_pass body).
Proof.
  intros s. unfold try_pass, try_except.
  destruct (body s) as [[a | e] s1]; exact I.
Qed.

(** [try: ... except: pass] always ends normally. *)
Lemma try_pass_ok (body : Py S unit) s : (try_pass body s).1 = Ok tt.
Proof.
  unfold try_pass, try_except.
  destruct (body s) as [[[] | e] s1]; reflexivity.
Qed.

Lemma for_each_app {A} (l1 l2 : list A) (body : A -> Py S unit) s :
  for_each (l1 ++ l2)%list body s =
  match for_each l1 body s with
  | (Ok _, s1) => for_each l2 body s1
  | (Raise e, s1) => (Raise e, s1)
  end.
Proof.
  revert s. induction l1 as [| x l1 IH]; intros s; simpl.
  - reflexivity.
  - unfold bind. destruct (body x s) as [[a | e] s1].
    + apply IH.
    + reflexivity.
Qed.

End Judgements.

#[export] Hint Resolve keeps_ret keeps_lift keeps_bind keeps_try_pass
  sound_ret sound_lift sound_bind sound_for_each sound_try_pass : py.

(** The exceptions of the tree operations all carry a message. *)
Lemma args_ok_py_find o name attrs : args_ok (py_find o name attrs).
Proof. destruct o; simpl; [exact I | discriminate]. Qed.

Lemma args_ok_py_find_all o name attrs : args_ok (py_find_all o name attrs).
Proof. destruct o; simpl; [exact I | discriminate]. Qed.

Lemma args_ok_py_text o : args_ok (py_text o).
Proof. destruct o; simpl; [exact I | discriminate]. Qed.

Lemma args_ok_py_getitem o key : args_ok (py_getitem o key).
Proof.
  destruct o as [[name a cs | s | s] |]; simpl; try discriminate.
  destruct (a !! key); simpl; [exact I | discriminate].
Qed.

Lemma args_ok_py_strip f v : args_ok (py_strip f v).
Proof. destruct v; simpl; [exact I | discriminate]. Qed.

Lemma args_ok_list_getitem {A} (l : list A) i : args_ok (list_getitem l i).
Proof. unfold list_getitem. destruct (l !! i); simpl; [exact I | discriminate]. Qed.

Lemma sound_setitem k v : sound (setitem k v).
Proof. intros s. exact I. Qed.

#[export] Hint Resolve args_ok_py_find args_ok_py_find_all args_ok_py_text
  args_ok_py_getitem args_ok_py_strip args_ok_list_getitem sound_setitem : py.

(** Closes [l = r] by evaluating both sides. *)
Ltac vm_refl :=
  match goal with
  | |- ?l = ?r => vm_cast_no_check (@eq_refl _ r)
  end.

(** ** The shape of a successful [parse_job] *)

Section ParseJob.

Variable env : Env.

(** Loading a page never touches [error_log]. *)
Lemma load_page_error_log url st :
  error_log (load_page env url st).2.1 = error_log st.1.
Proof.
  destruct st as [p k].
  unfold load_page, bind, get_driver_wait, driver_get, lift, ret.
  repeat case_match; simplify_eq; reflexivity.
Qed.

(** After a successful load the soup is the parse of what the driver of
    the process shows. *)
Lemma load_page_soup url st soup st1 :
  load_page env url st = (Ok soup, st1) ->
  exists d, threadLocal st1.1 = Some d /\ soup = html_parser env (page_source d).
Proof.
  destruct st as [p k].
  unfold load_page, bind, get_driver_wait, driver_get, lift, ret.
  intros H. repeat case_match; simplify_eq; eexists; split; reflexivity.
Qed.

Lemma extract_ok soup url data :
  extract env soup url = Ok data ->
  exists d1 d2 d3 d4 d5 d6,
    fill_required env soup initial_data = (Ok tt, d1) /\
    fill_description env soup d1 = (Ok tt, d2) /\
    fill_requirement env soup d2 = (Ok tt, d3) /\
    fill_other env soup d3 = (Ok tt, d4) /\
    fill_benefits env soup d4 = (Ok tt, d5) /\
    fill_contact env soup d5 = (Ok tt, d6) /\
    data = <["連結路徑" := VStr url]> d6.
Proof.
  unfold extract. intros H.
  destruct (bind _ _ initial_data) as [[u | e] d] eqn:E; [| discriminate].
  injection H as ->.
  apply bind_ok in E as ([] & d1 & H1 & E).
  apply bind_ok in E as ([] & d2 & H2 & E).
  apply bind_ok in E as ([] & d3 & H3 & E).
  apply bind_ok in E as ([] & d4 & H4 & E).
  apply bind_ok in E as ([] & d5 & H5 & E).
  apply bind_ok in E as ([] & d6 & H6 & E).
  exists d1, d2, d3, d4, d5, d6.
  unfold setitem in E. injection E as _ <-. auto 10.
Qed.

(** The handler never returns a record. *)
Lemma handle_error_result url e st r st' :
  handle_error env url e st = (Ok r, st') ->
  r = None /\ exc_args e <> [] /\
  exists msg, error_log st'.1 = (error_log st.1 ++ [(url, msg)])%list /\
              threadLocal st'.1 = threadLocal st.1 /\ st'.2 = st.2.
Proof.
  destruct st as [p k].
  unfold handle_error, bind, lift, error_log_append, ret.
  destruct (exc_args e) as [| a l]; [discriminate |].
  destruct (last_call_stack env e) as [[fileName lineNum] funcName].
  intros H. injection H as <- <-. simpl.
  split; [reflexivity |]. split; [discriminate |].
  eexists. repeat split; reflexivity.
Qed.

Lemma parse_job_some url st data st' :
  parse_job env url st = (Ok (Some data), st') ->
  exists soup,
    load_page env url st = (Ok soup, st') /\ extract env soup url = Ok data.
Proof.
  unfold parse_job, try_except. intros H.
  destruct (bind _ _ st) as [[r | e] s1] eqn:E.
  - injection H as -> ->.
    apply bind_ok in E as (soup & s2 & Hl & E).
    apply bind_ok in E as (d & s3 & Hx & E).
    apply lift_ok in Hx as [Hx ->].
    unfold ret in E. injection E as -> ->.
    exists soup. split; assumption.
  - apply handle_error_result in H as [H _]. discriminate H.
Qed.

End ParseJob.

(** ** The source-URL field *)

(** C5. Every record [parse_job] returns holds, under the key of the
    source URL, exactly the URL [parse_job] was called with. *)
Theorem parse_job_source_url (env : Env) (job_url : string) (st st' : State)
    (data : record) :
  parse_job env job_url st = (Ok (Some data), st') ->
  data !! "連結路徑" = Some (VStr job_url).
Proof.
  intros H.
  apply parse_job_some in H as (soup & _ & H).
  apply extract_ok in H as (d1 & d2 & d3 & d4 & d5 & d6 & _ & _ & _ & _ & _ & _ & ->).
  apply lookup_insert_eq.
Qed.

Lemma parse_job_source_url_witness :
  let run := parse_job site "https://www.104.com.tw/job/full" (initial_process, 0) in
  run = (Ok (Some (record_of run)), run.2) /\
  record_of run !! "連結路徑" = Some (VStr "https://www.104.com.tw/job/full").
Proof.
  split.
  - vm_refl.
  - apply (parse_job_source_url site _ (initial_process, 0)
             (parse_job site "https://www.104.com.tw/job/full" (initial_process, 0)).2).
    vm_refl.
Defined.

(** ** No exception leaves [parse_job] *)

Ltac sound_step :=
  first
    [ apply sound_ret
    | apply sound_setitem
    | apply sound_try_pass
    | apply sound_lift; auto with py
    | apply sound_for_each; intros ?
    | apply sound_bind; [| intros ?] ].

Section Soundness.

Variable env : Env.

Lemma sound_fill_required soup : sound (fill_required env soup).
Proof. unfold fill_required. repeat sound_step. Qed.

Lemma sound_description_item item : sound (description_item env item).
Proof.
  unfold description_item. repeat sound_step.
  cbv zeta. repeat case_bool_decide; repeat sound_step.
Qed.

Lemma sound_requirement_item item : sound (requirement_item env item).
Proof.
  unfold requirement_item. repeat sound_step.
  cbv zeta. repeat case_bool_decide; repeat sound_step.
Qed.

Lemma sound_fill_description soup : sound (fill_description env soup).
Proof.
  unfold fill_description.
  apply sound_bind; [auto with py | intros table].
  apply sound_bind; [auto with py | intros items].
  apply sound_for_each, sound_description_item.
Qed.

Lemma sound_fill_requirement soup : sound (fill_requirement env soup).
Proof.
  unfold fill_requirement.
  apply sound_bind; [auto with py | intros table].
  apply sound_bind; [auto with py | intros items].
  apply sound_for_each, sound_requirement_item.
Qed.

Lemma args_ok_extract soup url : args_ok (extract env soup url).
Proof.
  unfold extract.
  match goal with |- args_ok (match ?m initial_data with _ => _ end) =>
    assert (Hs : sound m)
  end.
  { apply sound_bind; [apply sound_fill_required | intros _].
    apply sound_bind; [apply sound_fill_description | intros _].
    apply sound_bind; [apply sound_fill_requirement | intros _].
    unfold fill_other, fill_benefits, fill_contact. repeat sound_step. }
  specialize (Hs initial_data).
  destruct (bind _ _ initial_data) as [[u | e] d]; [exact I | exact Hs].
Qed.

Lemma sound_load_page url : browser_args_ok env -> sound (load_page env url).
Proof.
  intros Hb [p k].
  unfold load_page, bind, get_driver_wait, driver_get, lift, ret, wait_until.
  repeat case_match; simplify_eq; simpl; try exact I; try discriminate;
    eapply Hb; eassumption.
Qed.

End Soundness.

(** With [args] that are not empty the handler runs through: it appends
    the message for the first of them and returns [None]. *)
Lemma handle_error_logged (env : Env) (job_url : string) (e : exn) (st : State) :
  exc_args e <> [] ->
  exists detail rest,
    exc_args e = detail :: rest /\
    handle_error env job_url e st = (Ok None, logged st (job_url, errMsg env e detail)).
Proof.
  intros Ha. destruct st as [p k].
  unfold handle_error, bind, lift, error_log_append, ret, logged, errMsg.
  destruct (exc_args e) as [| detail rest]; [contradiction |].
  exists detail, rest. split; [reflexivity |].
  destruct (last_call_stack env e) as [[fileName lineNum] funcName]. reflexivity.
Qed.

(** Every exception of the [try] block has [args], and the block leaves
    [error_log] as it was. *)
Lemma try_block_sound (env : Env) (job_url : string) (st : State) :
  browser_args_ok env ->
  args_ok (try_block env job_url st).1 /\
  error_log (try_block env job_url st).2.1 = error_log st.1.
Proof.
  intros Hb.
  pose proof (sound_load_page env job_url Hb st) as Hl.
  pose proof (load_page_error_log env job_url st) as Hlog.
  unfold try_block, bind, lift.
  destruct (load_page env job_url st) as [[soup | e] st1]; simpl in *.
  - split; [apply args_ok_extract | exact Hlog].
  - split; [exact Hl | exact Hlog].
Qed.

(** [parse_job] is its [try] block under its handler. *)
Lemma parse_job_try_block (env : Env) (job_url : string) (st : State) :
  parse_job env job_url st
  = match try_block env job_url st with
    | (Ok data, st1) => (Ok (Some data), st1)
    | (Raise e, st1) => handle_error env job_url e st1
    end.
Proof.
  unfold parse_job, try_except, try_block, bind, lift, ret.
  destruct (load_page env job_url st) as [[soup | e] st1]; [| reflexivity].
  destruct (extract env soup job_url); reflexivity.
Qed.

(** C10. If the exceptions of the browser carry a non-empty [args], then
    for every URL and every state [parse_job] ends normally, and what it
    returns is decided by its [try] block (lines 70 to 139). If the block
    runs through, [parse_job] returns its record and [error_log] is as it
    was. If the block raises an exception [e], anywhere from the start of
    the browser to the last field, [parse_job] returns [None], and the
    state it leaves is the state at the raise with exactly one entry
    appended to [error_log]: the URL with the message made of the class of
    [e] and the first of its [args]. *)
Theorem parse_job_never_raises (env : Env) (job_url : string) (st : State) :
  browser_args_ok env ->
  exists r st',
    parse_job env job_url st = (Ok r, st') /\
    match try_block env job_url st with
    | (Ok data, st1) =>
        r = Some data /\ st' = st1 /\ error_log st'.1 = error_log st.1
    | (Raise e, st1) =>
        r = None /\
        exists detail rest,
          exc_args e = detail :: rest /\
          st' = logged st1 (job_url, errMsg env e detail) /\
          error_log st'.1
          = (error_log st.1 ++ [(job_url, errMsg env e detail)])%list
    end.
Proof.
  intros Hb.
  destruct (try_block_sound env job_url st Hb) as [Ha Hlog].
  rewrite parse_job_try_block.
  destruct (try_block env job_url st) as [[data | e] st1]; simpl in Ha, Hlog.
  - exists (Some data), st1. auto.
  - destruct (handle_error_logged env job_url e st1 Ha) as (detail & rest & He & Hh).
    exists None, (logged st1 (job_url, errMsg env e detail)).
    split; [exact Hh |]. split; [reflexivity |].
    exists detail, rest. split; [exact He |]. split; [reflexivity |].
    unfold logged. simpl. rewrite Hlog. reflexivity.
Qed.

Lemma site_browser_args_ok : browser_args_ok site.
Proof.
  intros k a e. destruct a as [url | c]; simpl; [| discriminate].
  unfold site_web. repeat case_bool_decide; try discriminate.
  - destruct (k <? 2)%nat; discriminate.
  - simpl. intros He. injection He as <-. discriminate.
Qed.

Lemma parse_job_never_raises_witness :
  let url := "https://www.104.com.tw/job/flaky" in
  let st := (initial_process, 0) in
  browser_args_ok site /\
  (try_block site url st).1
  = Raise (Exn "AttributeError" ["'NoneType' object has no attribute 'find'"]) /\
  exists r st',
    parse_job site url st = (Ok r, st') /\
    match try_block site url st with
    | (Ok data, st1) =>
        r = Some data /\ st' = st1 /\ error_log st'.1 = error_log st.1
    | (Raise e, st1) =>
        r = None /\
        exists detail rest,
          exc_args e = detail :: rest /\
          st' = logged st1 (url, errMsg site e detail) /\
          error_log st'.1 = (error_log st.1 ++ [(url, errMsg site e detail)])%list
    end.
Proof.
  intros url st. split; [exact site_browser_args_ok |]. split; [vm_refl |].
  exact (parse_job_never_raises site url st site_browser_args_ok).
Defined.

(** The premise of C10 is needed: an exception with empty [args] makes the
    handler itself fail, and that failure leaves [parse_job]. *)
Lemma handle_error_empty_args (env : Env) (job_url : string) (e : exn) (st : State) :
  exc_args e = [] ->
  handle_error env job_url e st = (Raise (Exn "IndexError" ["tuple index out of range"]), st).
Proof.
  intros H. unfold handle_error, bind, lift. rewrite H. reflexivity.
Qed.

(** ** Which keys a run of [extract] can write *)

Ltac in_list :=
  match goal with
  | |- ?P => apply (bool_decide_eq_true_1 P); vm_refl
  end.

Lemma keeps_bind_lift {S A B} (I : S -> Prop) (r : result A) (k : A -> Py S B) :
  (forall a, r = Ok a -> keeps I (k a)) -> keeps I (bind (lift r) k).
Proof.
  intros Hk s HI. unfold bind, lift. destruct r as [a | e]; simpl.
  - apply (Hk a eq_refl). exact HI.
  - exact HI.
Qed.

Lemma keeps_result {S A} (I : S -> Prop) (m : Py S A) s r s' :
  keeps I m -> m s = (r, s') -> I s -> I s'.
Proof. intros Hk Hm HI. specialize (Hk s HI). rewrite Hm in Hk. exact Hk. Qed.

Section Writes.

Variable env : Env.

Variable I : record -> Prop.

Lemma keeps_fill_required soup :
  (forall k v, k ∈ required_keys -> keeps I (setitem k v)) ->
  keeps I (fill_required env soup).
Proof.
  intros Hw. unfold fill_required.
  repeat (apply keeps_bind; [| intros ?]);
    try apply keeps_lift; apply Hw; in_list.
Qed.

Lemma keeps_description_item item :
  (forall col v, col ∈ description_set -> heading env item = Some col ->
                 keeps I (setitem col v)) ->
  keeps I (description_item env item).
Proof.
  intros Hw. unfold description_item.
  apply keeps_bind_lift. intros h3 Hh3. simpl in Hh3. injection Hh3 as <-.
  apply keeps_bind_lift. intros t Ht.
  assert (Hhead : heading env item = Some (strip env t)).
  { unfold heading. destruct (find item "h3" []); [| discriminate].
    simpl in Ht. injection Ht as <-. reflexivity. }
  cbv zeta. case_bool_decide as Hcol; [| apply keeps_ret].
  repeat case_bool_decide; try (apply Hw; assumption).
  apply keeps_bind_lift. intros p _. apply keeps_bind_lift. intros t' _.
  apply Hw; assumption.
Qed.

Lemma keeps_requirement_item item :
  (forall col v, col ∈ requirement_set -> heading env item = Some col ->
                 keeps I (setitem col v)) ->
  keeps I (requirement_item env item).
Proof.
  intros Hw. unfold requirement_item.
  apply keeps_bind_lift. intros h3 Hh3. simpl in Hh3. injection Hh3 as <-.
  apply keeps_bind_lift. intros t Ht.
  assert (Hhead : heading env item = Some (strip env t)).
  { unfold heading. destruct (find item "h3" []); [| discriminate].
    simpl in Ht. injection Ht as <-. reflexivity. }
  cbv zeta. case_bool_decide as Hcol; [| apply keeps_ret].
  repeat case_bool_decide; try (apply Hw; assumption).
  apply keeps_bind_lift. intros p _. apply keeps_bind_lift. intros t' _.
  apply Hw; assumption.
Qed.

Lemma keeps_fill_description soup :
  (forall item col v, item ∈ description_rows soup -> col ∈ description_set ->
                      heading env item = Some col -> keeps I (setitem col v)) ->
  keeps I (fill_description env soup).
Proof.
  intros Hw. unfold fill_description.
  apply keeps_bind_lift. intros table Ht. simpl in Ht. injection Ht as <-.
  apply keeps_bind_lift. intros items Hi.
  apply keeps_for_each. intros item Hitem.
  apply keeps_description_item. intros col v. apply Hw.
  unfold description_rows.
  destruct (find soup "div" _); [| discriminate].
  simpl in Hi. injection Hi as <-. exact Hitem.
Qed.

Lemma keeps_fill_requirement soup :
  (forall item col v, item ∈ requirement_rows soup -> col ∈ requirement_set ->
                      heading env item = Some col -> keeps I (setitem col v)) ->
  keeps I (fill_requirement env soup).
Proof.
  intros Hw. unfold fill_requirement.
  apply keeps_bind_lift. intros table Ht. simpl in Ht. injection Ht as <-.
  apply keeps_bind_lift. intros items Hi.
  apply keeps_for_each. intros item Hitem.
  apply keeps_requirement_item. intros col v. apply Hw.
  unfold requirement_rows.
  destruct (find soup "div" _); [| discriminate].
  simpl in Hi. injection Hi as <-. exact Hitem.
Qed.

Lemma keeps_fill_other soup :
  (forall v, other_section soup <> None -> keeps I (setitem "其他條件" v)) ->
  keeps I (fill_other env soup).
Proof.
  intros Hw. unfold fill_other. apply keeps_try_pass.
  apply keeps_bind_lift. intros block Hb. simpl in Hb. injection Hb as <-.
  apply keeps_bind_lift. intros p Hp. apply keeps_bind_lift. intros t _.
  apply Hw. unfold other_section.
  destruct (find soup "div" _); [discriminate | discriminate Hp].
Qed.

Lemma keeps_fill_benefits soup :
  (forall v, benefits_section soup <> None -> keeps I (setitem "公司福利" v)) ->
  keeps I (fill_benefits env soup).
Proof.
  intros Hw. unfold fill_benefits. apply keeps_try_pass.
  apply keeps_bind_lift. intros block Hb. simpl in Hb. injection Hb as <-.
  apply keeps_bind_lift. intros p Hp. apply keeps_bind_lift. intros t _.
  apply Hw. unfold benefits_section.
  destruct (find soup "div" _); [discriminate | discriminate Hp].
Qed.

Lemma keeps_fill_contact soup :
  (forall k v, k ∈ contact_set -> contact_section soup <> None ->
               keeps I (setitem k v)) ->
  keeps I (fill_contact env soup).
Proof.
  intros Hw. unfold fill_contact. apply keeps_try_pass.
  apply keeps_bind_lift. intros block Hb. simpl in Hb. injection Hb as <-.
  apply keeps_bind_lift. intros cells Hc. cbv zeta.
  apply keeps_for_each. intros i _.
  apply keeps_bind_lift. intros v _. apply keeps_bind_lift. intros k Hk.
  apply Hw.
  - unfold list_getitem in Hk.
    destruct (contact_set !! i) as [k' |] eqn:E; [| discriminate].
    injection Hk as <-. eapply list_elem_of_lookup_2. exact E.
  - unfold contact_section.
    destruct (find soup "div" _); [discriminate | discriminate Hc].
Qed.

(** An invariant that every assignment the soup allows preserves holds of
    the record [extract] returns. *)
Lemma extract_invariant soup url data :
  (forall k v, may_write env soup k -> keeps I (setitem k v)) ->
  I initial_data ->
  extract env soup url = Ok data ->
  I data.
Proof.
  intros Hw H0 Hx. unfold may_write in Hw.
  apply extract_ok in Hx as (d1 & d2 & d3 & d4 & d5 & d6 &
                             H1 & H2 & H3 & H4 & H5 & H6 & ->).
  assert (I d1) as I1.
  { eapply keeps_result; [apply keeps_fill_required | exact H1 | exact H0].
    intros k v Hk. apply Hw. auto. }
  assert (I d2) as I2.
  { eapply keeps_result; [apply keeps_fill_description | exact H2 | exact I1].
    intros item col v Hi Hc Hh. apply Hw. right; right; left. eauto. }
  assert (I d3) as I3.
  { eapply keeps_result; [apply keeps_fill_requirement | exact H3 | exact I2].
    intros item col v Hi Hc Hh. apply Hw. right; right; right; left. eauto. }
  assert (I d4) as I4.
  { eapply keeps_result; [apply keeps_fill_other | exact H4 | exact I3].
    intros v Hs. apply Hw. right; right; right; right; left. auto. }
  assert (I d5) as I5.
  { eapply keeps_result; [apply keeps_fill_benefits | exact H5 | exact I4].
    intros v Hs. apply Hw. do 5 right. left. auto. }
  assert (I d6) as I6.
  { eapply keeps_result; [apply keeps_fill_contact | exact H6 | exact I5].
    intros k v Hk Hs. apply Hw. do 6 right. auto. }
  apply (Hw "連結路徑" (VStr url)); auto.
Qed.

End Writes.

(** ** The fields of a record *)

Ltac not_in_list H :=
  exfalso;
  match type of H with
  | ?P =>
      let HF := fresh in
      assert (bool_decide P = false) as HF by (vm_refl);
      exact (bool_decide_eq_false_1 P HF H)
  end.

Lemma parse_job_page env url st data st' :
  parse_job env url st = (Ok (Some data), st') ->
  extract env (page_soup env st') url = Ok data.
Proof.
  intros H. apply parse_job_some in H as (soup & Hl & Hx).
  apply load_page_soup in Hl as (d & Hd & ->).
  unfold page_soup. rewrite Hd. exact Hx.
Qed.

Lemma required_keys_fields k : k ∈ required_keys -> k ∈ fields.
Proof. revert k. apply Forall_forall. in_list. Qed.

Lemma description_set_fields k : k ∈ description_set -> k ∈ fields.
Proof. revert k. apply Forall_forall. in_list. Qed.

Lemma requirement_set_fields k : k ∈ requirement_set -> k ∈ fields.
Proof. revert k. apply Forall_forall. in_list. Qed.

Lemma contact_set_fields k : k ∈ contact_set -> k ∈ fields.
Proof. revert k. apply Forall_forall. in_list. Qed.

Lemma may_write_fields env soup k : may_write env soup k -> k ∈ fields.
Proof.
  intros [H | [-> | [[H _] | [[H _] | [[-> _] | [[-> _] | [H _]]]]]]].
  - apply required_keys_fields, H.
  - in_list.
  - apply description_set_fields, H.
  - apply requirement_set_fields, H.
  - in_list.
  - in_list.
  - apply contact_set_fields, H.
Qed.

Lemma initial_data_lookup k : k ∈ fields -> initial_data !! k = Some (VStr "無").
Proof. revert k. apply Forall_forall. in_list. Qed.

Lemma initial_data_dom : dom initial_data = (list_to_set fields : gset string).
Proof.
  unfold initial_data. rewrite dom_list_to_map_L. reflexivity.
Qed.

Lemma union_singleton_list_to_set (k : string) (l : list string) :
  k ∈ l -> {[ k ]} ∪ list_to_set l = (list_to_set l : gset string).
Proof.
  intros Hk. apply subseteq_union_1_L. intros x Hx.
  apply elem_of_singleton in Hx as ->. apply elem_of_list_to_set. exact Hk.
Qed.

Lemma keeps_dom_setitem k v :
  k ∈ fields ->
  keeps (fun d : record => dom d = (list_to_set fields : gset string)) (setitem k v).
Proof.
  intros Hk d Hd. unfold setitem. simpl. rewrite dom_insert_L, Hd.
  apply union_singleton_list_to_set, Hk.
Qed.

Lemma keeps_lookup_setitem k v k' v' :
  k' <> k ->
  keeps (fun d : record => d !! k = Some v) (setitem k' v').
Proof.
  intros Hne d Hd. unfold setitem. simpl.
  rewrite lookup_insert_ne; [exact Hd | exact Hne].
Qed.

(** A field no statement can assign on this soup keeps the placeholder. *)
Lemma untouched_field env soup url data k :
  extract env soup url = Ok data ->
  k ∈ fields ->
  ~ may_write env soup k ->
  data !! k = Some (VStr "無").
Proof.
  intros Hx Hk Hn.
  apply (extract_invariant env (fun d => d !! k = Some (VStr "無")) soup url data).
  - intros k' v' Hw. apply keeps_lookup_setitem. intros ->. contradiction.
  - apply initial_data_lookup, Hk.
  - exact Hx.
Qed.

(** Which block leaves which key alone. *)

Section Frames.

Variable env : Env.
Variable soup : node.
Variable k : string.
Variable v : value.

Let I : record -> Prop := fun d => d !! k = Some v.

Lemma frame_description :
  k ∉ description_set -> keeps I (fill_description env soup).
Proof.
  intros Hk. apply keeps_fill_description. intros item col v' _ Hcol _.
  apply keeps_lookup_setitem. intros ->. contradiction.
Qed.

Lemma frame_requirement :
  k ∉ requirement_set -> keeps I (fill_requirement env soup).
Proof.
  intros Hk. apply keeps_fill_requirement. intros item col v' _ Hcol _.
  apply keeps_lookup_setitem. intros ->. contradiction.
Qed.

Lemma frame_other : k <> "其他條件" -> keeps I (fill_other env soup).
Proof.
  intros Hk. apply keeps_fill_other. intros v' _.
  apply keeps_lookup_setitem. congruence.
Qed.

Lemma frame_benefits : k <> "公司福利" -> keeps I (fill_benefits env soup).
Proof.
  intros Hk. apply keeps_fill_benefits. intros v' _.
  apply keeps_lookup_setitem. congruence.
Qed.

Lemma frame_contact : k ∉ contact_set -> keeps I (fill_contact env soup).
Proof.
  intros Hk. apply keeps_fill_contact. intros k' v' Hk' _.
  apply keeps_lookup_setitem. intros ->. contradiction.
Qed.

End Frames.

Lemma frame_required env soup k v :
  k ∉ required_keys -> keeps (fun d : record => d !! k = Some v) (fill_required env soup).
Proof.
  intros Hk. apply keeps_fill_required. intros k' v' Hk'.
  apply keeps_lookup_setitem. intros ->. contradiction.
Qed.

(** Lines 84 to 114 leave the keys of the optional sections alone. *)
Lemma tables_keep_placeholder env soup k d1 d2 d3 :
  k ∈ ["其他條件"; "公司福利"; "聯絡人"; "聯絡方式"] ->
  fill_required env soup initial_data = (Ok tt, d1) ->
  fill_description env soup d1 = (Ok tt, d2) ->
  fill_requirement env soup d2 = (Ok tt, d3) ->
  d3 !! k = Some (VStr "無").
Proof.
  intros Hk H1 H2 H3.
  assert (Forall (fun k => (k ∉ required_keys) /\ (k ∉ description_set) /\
                           (k ∉ requirement_set) /\ k ∈ fields)
            ["其他條件"; "公司福利"; "聯絡人"; "聯絡方式"]) as Hall by in_list.
  eapply Forall_forall in Hall; [| exact Hk].
  destruct Hall as (Ha & Hb & Hc & Hf).
  set (I := fun d : record => d !! k = Some (VStr "無")).
  apply (keeps_result I (fill_requirement env soup) d2 (Ok tt));
    [apply frame_requirement, Hc | exact H3 |].
  apply (keeps_result I (fill_description env soup) d1 (Ok tt));
    [apply frame_description, Hb | exact H2 |].
  apply (keeps_result I (fill_required env soup) initial_data (Ok tt));
    [apply frame_required, Ha | exact H1 |].
  apply initial_data_lookup, Hf.
Qed.

Lemma fill_other_exact env soup d :
  fill_other env soup d
  = (Ok tt, match other_text env soup with
            | Some t => <["其他條件" := VStr t]> d
            | None => d
            end).
Proof.
  unfold fill_other, try_pass, try_except, bind, lift, other_text, other_section,
    stripped_text, setitem, ret. simpl.
  destruct (find soup "div" _) as [block |]; simpl; [| reflexivity].
  destruct (find block "p" _) as [p |]; reflexivity.
Qed.

Lemma fill_benefits_exact env soup d :
  fill_benefits env soup d
  = (Ok tt, match benefits_text env soup with
            | Some t => <["公司福利" := VStr t]> d
            | None => d
            end).
Proof.
  unfold fill_benefits, try_pass, try_except, bind, lift, benefits_text,
    benefits_section, stripped_text, setitem, ret. simpl.
  destruct (find soup "div" _) as [block |]; simpl; [| reflexivity].
  destruct (find block "p" _) as [p |]; reflexivity.
Qed.

Lemma fill_contact_exact env soup d :
  fill_contact env soup d
  = (Ok tt, match contact_info env soup with
            | [] => d
            | [a] => <["聯絡人" := VStr a]> d
            | a :: b :: _ => <["聯絡方式" := VStr b]> (<["聯絡人" := VStr a]> d)
            end).
Proof.
  unfold fill_contact, try_pass, try_except, bind, lift, contact_info, contact_section.
  simpl. destruct (find soup "div" _) as [table |]; simpl; [| reflexivity].
  destruct (map (stripped_text env) _) as [| a [| b [| c rest]]]; reflexivity.
Qed.

(** The record of the odd page. *)
Lemma odd_page_record :
  exists data st',
    parse_job site "https://www.104.com.tw/job/odd" (initial_process, 0)
      = (Ok (Some data), st') /\
    data !! "工作待遇" = Some (VStr "") /\
    data !! "職務類別" = Some (VList ["軟體設計工程師"; "、"; "後端工程師"]).
Proof.
  exists (record_of (parse_job site "https://www.104.com.tw/job/odd" (initial_process, 0))),
    (parse_job site "https://www.104.com.tw/job/odd" (initial_process, 0)).2.
  split; [vm_refl |].
  split; vm_refl.
Qed.

(** C4 fails as stated: on a page whose salary row has no [p] element the
    record holds the empty string under the salary key. *)
Lemma every_field_filled_counterexample :
  ~ (forall data st',
       parse_job site "https://www.104.com.tw/job/odd" (initial_process, 0)
         = (Ok (Some data), st') ->
       every_field_filled data).
Proof.
  intros H.
  destruct odd_page_record as (data & st' & Hrun & Hsalary & _).
  destruct (H data st' Hrun "工作待遇") as (v & Hv & Hne & _); [in_list |].
  rewrite Hsalary in Hv. injection Hv as <-. apply Hne. reflexivity.
Qed.

(** A key [extract] can assign on the soup and that is none of the four
    keys of the optional sections is resolved. *)
Lemma may_write_resolved env soup k :
  k ∉ ["其他條件"; "公司福利"; "聯絡人"; "聯絡方式"] ->
  may_write env soup k -> resolved env soup k.
Proof.
  intros Hk [H | [H | [H | [H | [[-> _] | [[-> _] | [H _]]]]]]].
  - left. exact H.
  - right. left. exact H.
  - right. right. left. exact H.
  - right. right. right. left. exact H.
  - exfalso. apply Hk. in_list.
  - exfalso. apply Hk. in_list.
  - exfalso. apply Hk.
    apply elem_of_cons in H as [-> | H]; [in_list |].
    apply elem_of_cons in H as [-> | H]; [in_list |].
    apply elem_of_nil in H. contradiction.
Qed.

(** A key [extract] resolves is a key it can assign. *)
Lemma resolved_may_write env soup k : resolved env soup k -> may_write env soup k.
Proof.
  unfold resolved, may_write, other_text, benefits_text, contact_info.
  intros [H | [H | [H | [H | [[-> H] | [[-> H] | (i & Hi & Hlt)]]]]]].
  - auto.
  - auto.
  - auto.
  - auto 6.
  - right. right. right. right. left. split; [reflexivity |].
    destruct (other_section soup); [discriminate | exfalso; apply H; reflexivity].
  - right. right. right. right. right. left. split; [reflexivity |].
    destruct (benefits_section soup); [discriminate | exfalso; apply H; reflexivity].
  - do 6 right. split.
    + eapply list_elem_of_lookup_2, Hi.
    + destruct (contact_section soup); [discriminate |].
      simpl in Hlt. lia.
Qed.

(** The four keys of the optional sections: each holds the placeholder
    unless its section resolves it. *)
Lemma optional_unresolved env soup url data k :
  extract env soup url = Ok data ->
  k ∈ ["其他條件"; "公司福利"; "聯絡人"; "聯絡方式"] ->
  ~ resolved env soup k ->
  data !! k = Some (VStr "無").
Proof.
  intros Hx Hk Hn.
  apply extract_ok in Hx as (d1 & d2 & d3 & d4 & d5 & d6 &
                             H1 & H2 & H3 & H4 & H5 & H6 & ->).
  pose proof (tables_keep_placeholder env soup k d1 d2 d3 Hk H1 H2 H3) as H0.
  rewrite fill_other_exact in H4. injection H4 as <-.
  rewrite fill_benefits_exact in H5. injection H5 as <-.
  rewrite fill_contact_exact in H6. injection H6 as <-.
  unfold resolved in Hn.
  apply elem_of_cons in Hk as [-> | Hk];
    [| apply elem_of_cons in Hk as [-> | Hk];
       [| apply elem_of_cons in Hk as [-> | Hk];
          [| apply elem_of_cons in Hk as [-> | Hk];
             [| apply elem_of_nil in Hk; contradiction]]]].
  - destruct (other_text env soup) as [t |].
    { exfalso. apply Hn. do 4 right. left. split; [reflexivity | discriminate]. }
    destruct (contact_info env soup) as [| a [| b rest]];
      destruct (benefits_text env soup);
      rewrite ?lookup_insert_ne by discriminate; exact H0.
  - destruct (benefits_text env soup) as [t |].
    { exfalso. apply Hn. do 5 right. left. split; [reflexivity | discriminate]. }
    destruct (contact_info env soup) as [| a [| b rest]];
      destruct (other_text env soup);
      rewrite ?lookup_insert_ne by discriminate; exact H0.
  - destruct (contact_info env soup) as [| a rest].
    2: { exfalso. apply Hn. do 6 right. exists 0. split; [reflexivity | simpl; lia]. }
    destruct (benefits_text env soup); destruct (other_text env soup);
      rewrite ?lookup_insert_ne by discriminate; exact H0.
  - destruct (contact_info env soup) as [| a [| b rest]].
    3: { exfalso. apply Hn. do 6 right. exists 1. split; [reflexivity | simpl; lia]. }
    all: destruct (benefits_text env soup); destruct (other_text env soup);
      rewrite ?lookup_insert_ne by discriminate; exact H0.
Qed.

(** C4, amended. Every record [parse_job] returns has exactly the 25 keys
    of the dictionary literal, each with a string or a list of strings as
    its value, and every key the extractor did not resolve on the page
    holds the placeholder: a column no table row has as its heading, the
    other-conditions or the benefits key when the paragraph looked for is
    missing (with or without its block), a contact key the contact table
    has no cell for. Only a key that is resolved can hold the empty string
    or the empty list. *)
Theorem parse_job_fields (env : Env) (job_url : string) (st st' : State)
    (data : record) :
  parse_job env job_url st = (Ok (Some data), st') ->
  dom data = (list_to_set fields : gset string) /\
  (forall k, k ∈ fields -> exists v, data !! k = Some v) /\
  (forall k, k ∈ fields -> ~ resolved env (page_soup env st') k ->
             data !! k = Some (VStr "無")).
Proof.
  intros H. apply parse_job_page in H.
  assert (Hdom : dom data = (list_to_set fields : gset string)).
  { apply (extract_invariant env (fun d => dom d = list_to_set fields)
             (page_soup env st') job_url data).
    - intros k v Hw. apply keeps_dom_setitem. eapply may_write_fields, Hw.
    - apply initial_data_dom.
    - exact H. }
  split; [exact Hdom |]. split.
  - intros k Hk. apply (elem_of_dom (D := gset string)). rewrite Hdom.
    apply elem_of_list_to_set, Hk.
  - intros k Hk Hn.
    destruct (decide (k ∈ ["其他條件"; "公司福利"; "聯絡人"; "聯絡方式"])) as [Ho | Ho].
    + eapply optional_unresolved; eassumption.
    + eapply untouched_field; [exact H | exact Hk |].
      intros Hw. apply Hn. apply may_write_resolved; assumption.
Qed.

(** On the partial page the other-conditions block and the contact table
    are there, and the other-conditions key and the second contact key are
    not resolved. *)
Lemma partial_page_unresolved :
  other_section partial_page <> None /\ contact_section partial_page <> None /\
  ~ resolved partial_site partial_page "其他條件" /\
  ~ resolved partial_site partial_page "聯絡方式".
Proof.
  assert (Ho : other_text partial_site partial_page = None) by vm_refl.
  assert (Hc : length (contact_info partial_site partial_page) = 1) by vm_refl.
  split; [| split; [| split]].
  - assert (H : is_Some (other_section partial_page)).
    { apply (bool_decide_eq_true_1 _). vm_refl. }
    destruct H as [x ->]. discriminate.
  - assert (H : is_Some (contact_section partial_page)).
    { apply (bool_decide_eq_true_1 _). vm_refl. }
    destruct H as [x ->]. discriminate.
  - intros [H | [H | [[H _] | [[H _] | [[_ H] | [[H _] | (i & Hi & Hlt)]]]]]].
    + not_in_list H.
    + discriminate H.
    + not_in_list H.
    + not_in_list H.
    + apply H, Ho.
    + discriminate H.
    + destruct i as [| [| i]]; discriminate Hi.
  - intros [H | [H | [[H _] | [[H _] | [[H _] | [[H _] | (i & Hi & Hlt)]]]]]].
    + not_in_list H.
    + discriminate H.
    + not_in_list H.
    + not_in_list H.
    + discriminate H.
    + discriminate H.
    + rewrite Hc in Hlt. destruct i as [| [| i]]; [discriminate Hi | lia | discriminate Hi].
Qed.

Lemma parse_job_fields_witness :
  let run :=
    parse_job partial_site "https://www.104.com.tw/job/partial" (initial_process, 0) in
  run = (Ok (Some (record_of run)), run.2) /\
  (dom (record_of run) = (list_to_set fields : gset string) /\
   (forall k, k ∈ fields -> exists v, record_of run !! k = Some v) /\
   (forall k, k ∈ fields -> ~ resolved partial_site (page_soup partial_site run.2) k ->
              record_of run !! k = Some (VStr "無"))) /\
  page_soup partial_site run.2 = partial_page /\
  other_section partial_page <> None /\ contact_section partial_page <> None /\
  ~ resolved partial_site partial_page "其他條件" /\
  ~ resolved partial_site partial_page "聯絡方式".
Proof.
  intros run.
  assert (H : run = (Ok (Some (record_of run)), run.2)) by vm_refl.
  split; [exact H |]. split.
  - exact (parse_job_fields partial_site "https://www.104.com.tw/job/partial"
             (initial_process, 0) run.2 (record_of run) H).
  - split; [vm_refl | exact partial_page_unresolved].
Defined.

(** ** The optional sections *)

Lemma not_may_write_other env soup :
  other_section soup = None -> ~ may_write env soup "其他條件".
Proof.
  intros Hs [H | [H | [[H _] | [[H _] | [[_ H] | [[H _] | [H _]]]]]]];
    try contradiction; not_in_list H.
Qed.

Lemma not_may_write_benefits env soup :
  benefits_section soup = None -> ~ may_write env soup "公司福利".
Proof.
  intros Hs [H | [H | [[H _] | [[H _] | [[H _] | [[_ H] | [H _]]]]]]];
    try contradiction; not_in_list H.
Qed.

Lemma not_may_write_contact env soup k :
  k ∈ contact_set -> contact_section soup = None -> ~ may_write env soup k.
Proof.
  intros Hk Hs.
  apply elem_of_cons in Hk as [-> | Hk];
    [| apply elem_of_cons in Hk as [-> | Hk]; [| apply elem_of_nil in Hk; contradiction]].
  all: intros [H | [H | [[H _] | [[H _] | [[H _] | [[H _] | [_ H]]]]]]];
    try contradiction; not_in_list H.
Qed.

(** Once lines 84 to 114 have run, nothing in [extract] can fail. *)
Lemma extract_total env soup url d :
  (fill_required env soup ;; fill_description env soup ;; fill_requirement env soup)
    initial_data = (Ok tt, d) ->
  exists data, extract env soup url = Ok data.
Proof.
  intros H.
  apply bind_ok in H as ([] & d1 & H1 & H).
  apply bind_ok in H as ([] & d2 & H2 & H3).
  unfold extract, bind. rewrite H1, H2, H3.
  pose proof (try_pass_ok (S := record)) as Hok.
  unfold fill_other, fill_benefits, fill_contact.
  match goal with |- context [try_pass ?b d] =>
    pose proof (Hok b d) as Ho; destruct (try_pass b d) as [[[] | e] d4];
    [| discriminate Ho]
  end.
  match goal with |- context [try_pass ?b d4] =>
    pose proof (Hok b d4) as Hb; destruct (try_pass b d4) as [[[] | e] d5];
    [| discriminate Hb]
  end.
  match goal with |- context [try_pass ?b d5] =>
    pose proof (Hok b d5) as Hc; destruct (try_pass b d5) as [[[] | e] d6];
    [| discriminate Hc]
  end.
  eexists. reflexivity.
Qed.

(** C6. Take a page that loads and on which the statements before the
    optional sections (lines 84 to 114) run through. Then [parse_job]
    returns a record, whatever the optional sections look like, and appends
    nothing to [error_log]; the field of a section that is missing from the
    page holds the placeholder. *)
Theorem optional_sections_swallowed (env : Env) (job_url : string) (st st1 : State)
    (soup : node) (d : record) :
  load_page env job_url st = (Ok soup, st1) ->
  (fill_required env soup ;; fill_description env soup ;; fill_requirement env soup)
    initial_data = (Ok tt, d) ->
  exists data,
    parse_job env job_url st = (Ok (Some data), st1) /\
    error_log st1.1 = error_log st.1 /\
    (other_section soup = None -> data !! "其他條件" = Some (VStr "無")) /\
    (benefits_section soup = None -> data !! "公司福利" = Some (VStr "無")) /\
    (contact_section soup = None ->
     data !! "聯絡人" = Some (VStr "無") /\ data !! "聯絡方式" = Some (VStr "無")).
Proof.
  intros Hl Hm.
  destruct (extract_total env soup job_url d Hm) as [data Hx].
  exists data. split.
  { unfold parse_job, try_except, bind, lift, ret. rewrite Hl, Hx. reflexivity. }
  split.
  { pose proof (load_page_error_log env job_url st) as Hlog.
    rewrite Hl in Hlog. exact Hlog. }
  split; [| split].
  - intros Hs. eapply untouched_field; [exact Hx | in_list |].
    apply not_may_write_other, Hs.
  - intros Hs. eapply untouched_field; [exact Hx | in_list |].
    apply not_may_write_benefits, Hs.
  - intros Hs. split.
    + eapply untouched_field; [exact Hx | in_list |].
      apply not_may_write_contact; [in_list | exact Hs].
    + eapply untouched_field; [exact Hx | in_list |].
      apply not_may_write_contact; [in_list | exact Hs].
Qed.

Lemma optional_sections_swallowed_witness :
  let st := (initial_process, 0) in
  let run := load_page site "https://www.104.com.tw/job/bare" st in
  let soup := site_parser (render bare_page) in
  run = (Ok soup, run.2) /\
  after_tables site soup = (Ok tt, (after_tables site soup).2) /\
  contact_section soup = None /\
  exists data,
    parse_job site "https://www.104.com.tw/job/bare" st = (Ok (Some data), run.2) /\
    error_log run.2.1 = error_log st.1 /\
    (other_section soup = None -> data !! "其他條件" = Some (VStr "無")) /\
    (benefits_section soup = None -> data !! "公司福利" = Some (VStr "無")) /\
    (contact_section soup = None ->
     data !! "聯絡人" = Some (VStr "無") /\ data !! "聯絡方式" = Some (VStr "無")).
Proof.
  intros st run soup.
  assert (H1 : run = (Ok soup, run.2)) by vm_refl.
  assert (H2 : after_tables site soup = (Ok tt, (after_tables site soup).2)) by vm_refl.
  split; [exact H1 |]. split; [exact H2 |]. split; [vm_refl |].
  exact (optional_sections_swallowed site "https://www.104.com.tw/job/bare" st run.2
           soup (after_tables site soup).2 H1 H2).
Defined.

(** ** The two list-valued fields *)

Lemma fill_description_rows env soup d d' :
  fill_description env soup d = (Ok tt, d') ->
  for_each (description_rows soup) (description_item env) d = (Ok tt, d').
Proof.
  unfold fill_description, description_rows, bind, lift. simpl.
  destruct (find soup "div" _); simpl; [auto | discriminate].
Qed.

Lemma fill_requirement_rows env soup d d' :
  fill_requirement env soup d = (Ok tt, d') ->
  for_each (requirement_rows soup) (requirement_item env) d = (Ok tt, d').
Proof.
  unfold fill_requirement, requirement_rows, bind, lift. simpl.
  destruct (find soup "div" _); simpl; [auto | discriminate].
Qed.

(** A loop over [before ++ item :: after] that ends normally ran [item]
    and then [after]. *)
Lemma for_each_split {S A} (before after : list A) (item : A)
    (body : A -> Py S unit) s s' :
  for_each (before ++ item :: after)%list body s = (Ok tt, s') ->
  exists s1 s2,
    body item s1 = (Ok tt, s2) /\ for_each after body s2 = (Ok tt, s').
Proof.
  rewrite for_each_app.
  destruct (for_each before body s) as [[[] | e] s1]; [| discriminate].
  simpl. intros H. apply bind_ok in H as ([] & s2 & Hb & Ha).
  exists s1, s2. split; assumption.
Qed.

Lemma description_item_category env item d d' :
  heading env item = Some "職務類別" ->
  description_item env item d = (Ok tt, d') ->
  d' !! "職務類別"
  = Some (VList (map (stripped_text env) (find_all item "u" []))).
Proof.
  unfold heading, description_item, bind, lift. simpl.
  destruct (find item "h3" []) as [h3 |]; [| discriminate].
  intros Hh. injection Hh as Hh. simpl. rewrite Hh.
  rewrite (bool_decide_eq_true_2 ("職務類別" ∈ description_set)) by in_list.
  rewrite (bool_decide_eq_true_2 ("職務類別" = "職務類別")) by reflexivity.
  unfold setitem. intros H. injection H as <-. apply lookup_insert_eq.
Qed.

Lemma requirement_item_status env item d d' :
  heading env item = Some "接受身份" ->
  requirement_item env item d = (Ok tt, d') ->
  d' !! "接受身份"
  = Some (VList (List.filter (fun s => negb (bool_decide (s = "、")))
                   (map (stripped_text env) (find_all item "span" [])))).
Proof.
  unfold heading, requirement_item, bind, lift. simpl.
  destruct (find item "h3" []) as [h3 |]; [| discriminate].
  intros Hh. injection Hh as Hh. simpl. rewrite Hh.
  rewrite (bool_decide_eq_true_2 ("接受身份" ∈ requirement_set)) by in_list.
  rewrite (bool_decide_eq_true_2 ("接受身份" = "接受身份")) by reflexivity.
  unfold setitem. intros H. injection H as <-. apply lookup_insert_eq.
Qed.

(** Lines 116 to 138 leave the fields of the two tables alone. *)
Lemma sections_keep env soup url k v d3 d4 d5 d6 :
  k ∈ (description_set ++ requirement_set)%list ->
  fill_other env soup d3 = (Ok tt, d4) ->
  fill_benefits env soup d4 = (Ok tt, d5) ->
  fill_contact env soup d5 = (Ok tt, d6) ->
  d3 !! k = Some v ->
  <["連結路徑" := VStr url]> d6 !! k = Some v.
Proof.
  intros Hk H4 H5 H6 H.
  assert (Hne : forall k', k' ∈ ["其他條件"; "公司福利"; "聯絡人"; "聯絡方式"; "連結路徑"] ->
                           k' <> k).
  { assert (Forall (fun k => Forall (fun k' => k' <> k)
                        ["其他條件"; "公司福利"; "聯絡人"; "聯絡方式"; "連結路徑"])
              (description_set ++ requirement_set)%list) as Hall by in_list.
    intros k' Hk'.
    eapply Forall_forall in Hall; [| exact Hk].
    eapply Forall_forall in Hall; [| exact Hk']. exact Hall. }
  rewrite lookup_insert_ne by (apply Hne; in_list).
  set (I := fun d : record => d !! k = Some v).
  apply (keeps_result I (fill_contact env soup) d5 (Ok tt)).
  { apply keeps_fill_contact. intros k' v' Hk' _. apply keeps_lookup_setitem, Hne.
    apply elem_of_cons in Hk' as [-> | Hk']; [in_list |].
    apply elem_of_cons in Hk' as [-> | Hk']; [in_list |].
    apply elem_of_nil in Hk'. contradiction. }
  { exact H6. }
  apply (keeps_result I (fill_benefits env soup) d4 (Ok tt)).
  { apply keeps_fill_benefits. intros v' _. apply keeps_lookup_setitem, Hne. in_list. }
  { exact H5. }
  apply (keeps_result I (fill_other env soup) d3 (Ok tt)).
  { apply keeps_fill_other. intros v' _. apply keeps_lookup_setitem, Hne. in_list. }
  { exact H4. }
  exact H.
Qed.

(** C7 fails as stated: a separator inside a [u] element of the category
    row stays in the category list. *)
Lemma separators_filtered_counterexample :
  ~ (forall data st',
       parse_job site "https://www.104.com.tw/job/odd" (initial_process, 0)
         = (Ok (Some data), st') ->
       separators_filtered data).
Proof.
  intros H.
  destruct odd_page_record as (data & st' & Hrun & _ & Hcategory).
  apply (H data st' Hrun Category _ Hcategory).
  right. left.
Qed.

(** C7, amended. In a record [parse_job] returns, the category field is
    the list of the stripped texts of all [u] elements of the last
    category row, in document order, with nothing filtered out; the
    accepted-status field is the list of the stripped texts of all [span]
    elements of the last accepted-status row, in document order, without
    those equal to the separator. *)
Theorem list_fields (env : Env) (job_url : string) (st st' : State) (data : record)
    (f : list_field) (before after : list node) (item : node) :
  parse_job env job_url st = (Ok (Some data), st') ->
  list_field_rows f (page_soup env st') = (before ++ item :: after)%list ->
  heading env item = Some (list_field_key f) ->
  (forall r, r ∈ after -> heading env r <> Some (list_field_key f)) ->
  data !! list_field_key f = Some (VList (list_field_value env f item)).
Proof.
  intros H Hrows Hitem Hafter. apply parse_job_page in H.
  apply extract_ok in H as (d1 & d2 & d3 & d4 & d5 & d6 &
                            H1 & H2 & H3 & H4 & H5 & H6 & ->).
  set (I := fun d : record =>
              d !! list_field_key f = Some (VList (list_field_value env f item))).
  destruct f; simpl in Hrows, Hitem, Hafter.
  - apply fill_description_rows in H2. rewrite Hrows in H2.
    apply for_each_split in H2 as (da & db & Hb & Ha).
    apply (sections_keep env (page_soup env st') job_url _ _ d3 d4 d5 d6);
      [in_list | assumption.. |].
    apply (keeps_result I (fill_requirement env (page_soup env st')) d2 (Ok tt)).
    { apply keeps_fill_requirement. intros r col v _ Hcol _.
      apply keeps_lookup_setitem. intros ->. not_in_list Hcol. }
    { exact H3. }
    apply (keeps_result I (for_each after (description_item env)) db (Ok tt)).
    { apply keeps_for_each. intros r Hr. apply keeps_description_item.
      intros col v _ Hh. apply keeps_lookup_setitem. intros ->.
      exact (Hafter r Hr Hh). }
    { exact Ha. }
    exact (description_item_category env item da db Hitem Hb).
  - apply fill_requirement_rows in H3. rewrite Hrows in H3.
    apply for_each_split in H3 as (da & db & Hb & Ha).
    apply (sections_keep env (page_soup env st') job_url _ _ d3 d4 d5 d6);
      [in_list | assumption.. |].
    apply (keeps_result I (for_each after (requirement_item env)) db (Ok tt)).
    { apply keeps_for_each. intros r Hr. apply keeps_requirement_item.
      intros col v _ Hh. apply keeps_lookup_setitem. intros ->.
      exact (Hafter r Hr Hh). }
    { exact Ha. }
    exact (requirement_item_status env item da db Hitem Hb).
Qed.

Lemma list_fields_witness :
  let run := parse_job site "https://www.104.com.tw/job/full" (initial_process, 0) in
  let soup := page_soup site run.2 in
  run = (Ok (Some (record_of run)), run.2) /\
  list_field_rows AcceptedStatus soup
    = ([] ++ status_row :: [row "工作經歷" [el "p" [] [NavigableString "2年以上"]]])%list /\
  heading site status_row = Some "接受身份" /\
  record_of run !! "接受身份"
    = Some (VList (list_field_value site AcceptedStatus status_row)) /\
  list_field_value site AcceptedStatus status_row = ["上班族"; "應屆畢業生"].
Proof.
  intros run soup.
  assert (H1 : run = (Ok (Some (record_of run)), run.2)) by vm_refl.
  assert (H2 : list_field_rows AcceptedStatus soup
               = ([] ++ status_row
                     :: [row "工作經歷" [el "p" [] [NavigableString "2年以上"]]])%list)
    by vm_refl.
  assert (H3 : heading site status_row = Some "接受身份") by vm_refl.
  split; [exact H1 |]. split; [exact H2 |]. split; [exact H3 |]. split; [| vm_refl].
  apply (list_fields site "https://www.104.com.tw/job/full" (initial_process, 0) run.2
           (record_of run) AcceptedStatus [] _ status_row H1 H2 H3).
  apply Forall_forall. in_list.
Defined.

(** ** The link extractor *)

Lemma job_urls_loop (entries : list node) (acc urls : list string) :
  for_each entries
    (fun job =>
       do a <- lift (py_find (Some job) "a" [("class", "js-job-link")]);
       do href <- lift (py_getitem a "href");
       do job_url <- lift (https_link href);
       fun job_urls => (Ok tt, app job_urls [job_url])) acc = (Ok tt, urls) ->
  exists new, urls = (acc ++ new)%list /\ Forall2 entry_link entries new.
Proof.
  revert acc. induction entries as [| job entries IH]; intros acc H; simpl in H.
  - unfold ret in H. injection H as <-. exists []. split.
    + symmetry. apply app_nil_r.
    + constructor.
  - apply bind_ok in H as ([] & acc1 & Hjob & Hrest).
    apply bind_ok in Hjob as (a & s1 & Ha & Hjob). apply lift_ok in Ha as [Ha ->].
    apply bind_ok in Hjob as (href & s2 & Hh & Hjob). apply lift_ok in Hh as [Hh ->].
    apply bind_ok in Hjob as (url & s3 & Hu & Hjob). apply lift_ok in Hu as [Hu ->].
    injection Hjob as <-.
    assert (Hlink : entry_link job url).
    { unfold py_find in Ha. injection Ha as <-.
      destruct (find job "a" _) as [[name attrs cs | s | s] |] eqn:Ef;
        try discriminate.
      unfold py_getitem in Hh.
      destruct (attrs !! "href") as [v |] eqn:E; [| discriminate].
      injection Hh as ->. unfold https_link in Hu.
      destruct href as [h | l]; [| discriminate].
      injection Hu as <-. exists (Tag name attrs cs), h. auto. }
    apply IH in Hrest as (new & -> & Hnew).
    exists (url :: new). split.
    + rewrite <- app_assoc. reflexivity.
    + constructor; assumption.
Qed.

(** C8. [get_job_urls] depends on nothing but the parse of its argument:
    two environments that parse the snapshot alike (whatever their web,
    their scheduling, their tracebacks) give the same result. When it
    returns a list, that list holds, in document order, one link for each
    job entry of the snapshot. *)
Theorem get_job_urls_pure (env1 env2 : Env) (page_source : string) :
  html_parser env1 page_source = html_parser env2 page_source ->
  get_job_urls env1 page_source = get_job_urls env2 page_source /\
  forall urls,
    get_job_urls env1 page_source = Ok urls ->
    Forall2 entry_link (job_entries (html_parser env1 page_source)) urls.
Proof.
  intros Hp. split.
  - unfold get_job_urls. rewrite Hp. reflexivity.
  - intros urls. unfold get_job_urls, job_entries.
    destruct (for_each _ _ []) as [[[] | e] job_urls] eqn:E; [| discriminate].
    intros H. injection H as <-.
    apply job_urls_loop in E as (new & -> & Hnew). exact Hnew.
Qed.

Lemma get_job_urls_pure_witness :
  html_parser site (render listing_page) = html_parser offline_site (render listing_page) /\
  get_job_urls site (render listing_page) = get_job_urls offline_site (render listing_page) /\
  get_job_urls site (render listing_page)
    = Ok ["https://www.104.com.tw/job/6abc1"; "https://www.104.com.tw/job/6abc2"] /\
  Forall2 entry_link (job_entries (html_parser site (render listing_page)))
    ["https://www.104.com.tw/job/6abc1"; "https://www.104.com.tw/job/6abc2"].
Proof.
  pose proof (get_job_urls_pure site offline_site (render listing_page) eq_refl)
    as [H1 H2].
  assert (H3 : get_job_urls site (render listing_page)
               = Ok ["https://www.104.com.tw/job/6abc1";
                     "https://www.104.com.tw/job/6abc2"]) by vm_refl.
  split; [reflexivity |]. split; [exact H1 |]. split; [exact H3 |].
  exact (H2 _ H3).
Defined.

(** ** The counts *)

Lemma add_company_size (data : list record) (X Y : gset string) :
  for_each data add_company X = (Ok tt, Y) -> size Y <= size X + length data.
Proof.
  revert X. induction data as [| job data IH]; intros X H; simpl in H.
  - unfold ret in H. injection H as <-. simpl. lia.
  - apply bind_ok in H as ([] & X1 & Hjob & Hrest).
    apply IH in Hrest. unfold add_company in Hjob.
    destruct (job !! "公司名稱") as [[s | l] |]; try discriminate.
    injection Hjob as <-.
    rewrite size_union_alt, size_singleton in Hrest.
    assert (size (X ∖ {[s]}) <= size X).
    { apply subseteq_size. intros x Hx.
      apply elem_of_difference in Hx as [Hx _]. exact Hx. }
    simpl. lia.
Qed.

(** C9. Whenever lines 215 to 234 run through, the number of distinct
    company names they log is at most the number of filtered records. *)
Theorem company_count_le_filtered (filters : list (string * FilterRule))
    (data : list (option record)) (kept : list record) (log : Log) :
  filter_and_count filters data = Ok (kept, log) ->
  company_count log <= filtered_data_count log.
Proof.
  unfold filter_and_count.
  destruct (filter_data filters (not_none data)) as [[[] | e] data1]; [| discriminate].
  destruct (for_each data1 add_company ∅) as [[[] | e] company_set] eqn:E;
    [| discriminate].
  intros H. injection H as _ <-. simpl.
  apply add_company_size in E. rewrite size_empty in E. exact E.
Qed.

Lemma company_count_le_filtered_witness :
  let out := result_get ([], empty_log) (filter_and_count [] sample_data) in
  filter_and_count [] sample_data = Ok (out.1, out.2) /\
  company_count out.2 <= filtered_data_count out.2 /\
  company_count out.2 = 1 /\ filtered_data_count out.2 = 2.
Proof.
  intros out.
  assert (H : filter_and_count [] sample_data = Ok (out.1, out.2)) by vm_refl.
  split; [exact H |]. split; [| split; vm_refl].
  exact (company_count_le_filtered [] sample_data out.1 out.2 H).
Defined.

(** ** The filters *)

Lemma has_column_filter p filter_col data :
  has_column filter_col data -> has_column filter_col (List.filter p data).
Proof.
  intros H job Hjob. apply H.
  apply list_elem_of_In in Hjob. apply filter_In in Hjob as [Hjob _].
  apply list_elem_of_In. exact Hjob.
Qed.

Lemma filter_filter {A} (p q : A -> bool) (l : list A) :
  List.filter q (List.filter p l) = List.filter (fun x => p x && q x) l.
Proof.
  induction l as [| x l IH]; simpl; [reflexivity |].
  destruct (p x); simpl; [destruct (q x) |]; rewrite IH; reflexivity.
Qed.

Lemma filter_all {A} (l : list A) : List.filter (fun _ => true) l = l.
Proof. induction l as [| x l IH]; simpl; [| rewrite IH]; reflexivity. Qed.

Lemma select_filter keep filter_col data :
  has_column filter_col data ->
  select keep filter_col data = Ok (List.filter (field_test keep filter_col) data).
Proof.
  induction data as [| job data IH]; intros H; simpl; [reflexivity |].
  destruct (H job) as [v Hv]; [left |].
  unfold field_test at 1. rewrite Hv.
  rewrite IH; [reflexivity |]. intros j Hj. apply H. right. exact Hj.
Qed.

(** One of the two token loops of lines 223 to 227. *)
Lemma token_loop (keep : string -> value -> bool) filter_col tokens data :
  has_column filter_col data ->
  for_each tokens (fun token => rebind (select (keep token) filter_col)) data
  = (Ok tt, List.filter
              (fun job => forallb (fun token => field_test (keep token) filter_col job) tokens)
              data).
Proof.
  revert data. induction tokens as [| token tokens IH]; intros data H; simpl.
  - unfold ret. rewrite filter_all. reflexivity.
  - unfold bind, rebind at 1. rewrite select_filter by exact H.
    rewrite IH by (apply has_column_filter, H).
    rewrite filter_filter. reflexivity.
Qed.

Lemma filter_data_filter filters data :
  (forall f, f ∈ filters -> has_column f.1 data) ->
  filter_data filters data = (Ok tt, List.filter (passes filters) data).
Proof.
  unfold filter_data.
  revert data. induction filters as [| f filters IH]; intros data H; simpl.
  - unfold ret. unfold passes. simpl. rewrite filter_all. reflexivity.
  - assert (Hf : has_column f.1 data) by (apply H; left).
    unfold bind at 1. unfold bind at 1.
    rewrite (token_loop contains) by exact Hf.
    rewrite (token_loop (fun token v => negb (contains token v)))
      by (apply has_column_filter, Hf).
    rewrite filter_filter.
    rewrite IH.
    + rewrite filter_filter. reflexivity.
    + intros g Hg. apply has_column_filter, H. right. exact Hg.
Qed.

(** C3 fails as stated: on the list-valued category field the include
    token has to be an element of the list. The record of the full page
    has the categories 軟體設計工程師 and 後端工程師; asking for 工程師
    drops it, and excluding 工程師 keeps it. *)
Lemma substring_filter_counterexample :
  let job := record_of (parse_job site "https://www.104.com.tw/job/full" (initial_process, 0)) in
  ~ (forall kept,
       filter_data engineer_only [job] = (Ok tt, kept) ->
       kept = List.filter (substring_passes engineer_only) [job]).
Proof.
  intros job H.
  specialize (H []).
  assert (Hrun : filter_data engineer_only [job] = (Ok tt, [])) by vm_refl.
  specialize (H Hrun).
  assert (Hspec : List.filter (substring_passes engineer_only) [job] = [job]) by vm_refl.
  rewrite Hspec in H. discriminate H.
Qed.

(** C3, amended. When every record has the configured columns, filtering
    ends normally and keeps exactly the records that pass every entry of
    the configuration: for each column, the field contains every include
    token and no exclude token, where a string field contains a token that
    is a substring of it and a list field contains a token that is one of
    its elements. *)
Theorem filter_data_exact (filters : list (string * FilterRule)) (data : list record) :
  (forall f, f ∈ filters -> has_column f.1 data) ->
  filter_data filters data = (Ok tt, List.filter (passes filters) data) /\
  forall job f v,
    job ∈ List.filter (passes filters) data -> f ∈ filters -> job !! f.1 = Some v ->
    (forall token, token ∈ tokens_of (includes f.2) -> contains token v = true) /\
    (forall token, token ∈ tokens_of (excludes f.2) -> contains token v = false).
Proof.
  intros H. split; [apply filter_data_filter, H |].
  intros job f v Hjob Hf Hv.
  apply list_elem_of_In in Hjob. apply filter_In in Hjob as [_ Hp].
  unfold passes in Hp. rewrite forallb_forall in Hp.
  specialize (Hp f (proj1 (list_elem_of_In _ _) Hf)).
  unfold passes_rule in Hp. apply andb_prop in Hp as [Hi He].
  rewrite forallb_forall in Hi, He. split.
  - intros token Ht. apply list_elem_of_In in Ht. specialize (Hi token Ht).
    unfold field_test in Hi. rewrite Hv in Hi. exact Hi.
  - intros token Ht. apply list_elem_of_In in Ht. specialize (He token Ht).
    unfold field_test in He. rewrite Hv in He.
    apply negb_true_iff in He. exact He.
Qed.

Lemma sample_records_have_category :
  forall f, f ∈ no_engineer -> has_column f.1 (not_none sample_data).
Proof.
  apply Forall_forall. constructor; [| constructor].
  intros job Hjob. revert job Hjob. apply Forall_forall. in_list.
Qed.

Lemma filter_data_exact_witness :
  (forall f, f ∈ no_engineer -> has_column f.1 (not_none sample_data)) /\
  filter_data no_engineer (not_none sample_data)
    = (Ok tt, List.filter (passes no_engineer) (not_none sample_data)) /\
  length (List.filter (passes no_engineer) (not_none sample_data)) = 2.
Proof.
  split; [exact sample_records_have_category |]. split.
  - exact (proj1 (filter_data_exact no_engineer (not_none sample_data)
                    sample_records_have_category)).
  - vm_refl.
Defined.

(** ** The listing pages *)

Lemma collect_step_length env (l l' : Listing) :
  bind append_page_source
    (fun _ => bind (click_next_page env) (fun _ => wait_next_page)) l = (Ok tt, l') ->
  length (page_sources l') = S (length (page_sources l)).
Proof.
  intros H.
  apply bind_ok in H as ([] & l1 & H1 & H).
  apply bind_ok in H as ([] & l2 & H2 & H3).
  unfold append_page_source in H1. injection H1 as <-.
  unfold click_next_page in H2. simpl in H2.
  destruct (resp_error _); [discriminate |]. injection H2 as <-.
  unfold wait_next_page in H3. injection H3 as _ <-. simpl.
  rewrite length_app. simpl. lia.
Qed.

Lemma collect_loop_length env {A} (rounds : list A) (l l' : Listing) :
  for_each rounds
    (fun _ => bind append_page_source
                (fun _ => bind (click_next_page env) (fun _ => wait_next_page))) l
  = (Ok tt, l') ->
  length (page_sources l') = (length (page_sources l) + length rounds)%nat.
Proof.
  revert l. induction rounds as [| x rounds IH]; intros l H; simpl in H.
  - unfold ret in H. injection H as <-. simpl. lia.
  - apply bind_ok in H as ([] & l1 & H1 & H).
    apply collect_step_length in H1. apply IH in H. simpl. lia.
Qed.

(** The number of page sources lines 188 to 194 collect, for any browser
    and any page count, when they run through: one for each of the
    [n_pages - 2] rounds of the loop and one more. *)
Lemma collect_page_sources_length env (n_pages : Z) (l l' : Listing) :
  collect_page_sources env n_pages l = (Ok tt, l') ->
  length (page_sources l')
  = (length (page_sources l) + Z.to_nat (n_pages - 2) + 1)%nat.
Proof.
  unfold collect_page_sources. intros H.
  apply bind_ok in H as ([] & l1 & H1 & H2).
  apply collect_loop_length in H1.
  unfold append_page_source in H2. injection H2 as <-. simpl.
  rewrite length_app, H1. unfold range.
  rewrite length_map, length_seq. simpl. lia.
Qed.

(** C2 (the code misses the claim). With a parsed page count of 3, and a
    browser in which every click on the next-page control succeeds, the
    loop collects the sources of pages 1 and 2 and stops: two snapshots,
    not three; the third page is never visited. *)
Theorem three_pages_two_snapshots :
  let out := collect_page_sources site 3 first_listing in
  out.1 = Ok tt /\
  page_sources out.2 = ["<p>page 1</p>"; "<p>page 2</p>"] /\
  length (page_sources out.2) <> 3.
Proof.
  intros out.
  assert (H : page_sources out.2 = ["<p>page 1</p>"; "<p>page 2</p>"]) by vm_refl.
  split; [vm_refl |]. split; [exact H |].
  rewrite H. discriminate.
Qed.

(** ** The retry *)

Lemma pool_imap_parent env {A B} (f : A -> Py State B) (tasks : list A) (st : State) :
  (pool_imap env f tasks st).2.1 = st.1.
Proof.
  destruct st as [parent k]. unfold pool_imap.
  destruct (run_tasks env f 0 tasks (fun _ => parent) k) as [[r ws] k'].
  reflexivity.
Qed.

(** After the parallel pass the [error_log] of the parent is as empty as
    the module made it, whatever the workers logged in theirs: lines 209 to
    213 retry nothing, do not touch the browser, and leave [data] as the
    pool returned it. *)
Lemma retry_never_runs env (job_urls : list string) (k : nat)
    (data : list (option record)) (st' : State) :
  pool_imap env (parse_job env) job_urls (initial_process, k) = (Ok data, st') ->
  st'.1 = initial_process /\ retry_errors env data st' = (Ok data, st').
Proof.
  intros H.
  pose proof (pool_imap_parent env (parse_job env) job_urls (initial_process, k)) as Hp.
  rewrite H in Hp. simpl in Hp. split; [exact Hp |].
  unfold retry_errors, bind. rewrite Hp. reflexivity.
Qed.

(** C1 (the code misses the claim). The listing holds one job whose page
    fails on the first visit and would load completely on any later one.
    The worker logs the failure in its own process; the parent retries
    nothing: the run ends with one parsed result, none of them a record,
    and no record in the output, although [parse_job] on the same URL
    right after the run returns a record. *)
Theorem flaky_url_is_lost :
  let out := crawl site [] [render flaky_listing] (initial_process, 0) in
  out.1 = Ok ([], {| total_data_count := 1; parsed_data_count := 0;
                     filtered_data_count := 0; company_count := 0 |}) /\
  error_log out.2.1 = [] /\
  (let worker := parse_job site "https://www.104.com.tw/job/flaky" (initial_process, 0) in
   worker.1 = Ok None /\ length (error_log worker.2.1) = 1) /\
  exists data st',
    parse_job site "https://www.104.com.tw/job/flaky" out.2 = (Ok (Some data), st').
Proof.
  intros out. split; [vm_refl |]. split; [vm_refl |].
  split; [split; vm_refl |].
  exists (record_of (parse_job site "https://www.104.com.tw/job/flaky" out.2)),
    (parse_job site "https://www.104.com.tw/job/flaky" out.2).2.
  vm_refl.
Qed.

(** * Further properties of the extractor *)

(** Lines 91 to 138 leave the three required fields alone. *)
Lemma required_kept env soup url k v d1 d2 d3 d4 d5 d6 :
  k ∈ required_keys ->
  fill_description env soup d1 = (Ok tt, d2) ->
  fill_requirement env soup d2 = (Ok tt, d3) ->
  fill_other env soup d3 = (Ok tt, d4) ->
  fill_benefits env soup d4 = (Ok tt, d5) ->
  fill_contact env soup d5 = (Ok tt, d6) ->
  d1 !! k = Some v ->
  <["連結路徑" := VStr url]> d6 !! k = Some v.
Proof.
  intros Hk H2 H3 H4 H5 H6 H.
  assert (Forall (fun k => (k ∉ description_set) /\ (k ∉ requirement_set) /\
                           k <> "其他條件" /\ k <> "公司福利" /\ (k ∉ contact_set) /\
                           "連結路徑" <> k) required_keys) as Hall by in_list.
  eapply Forall_forall in Hall; [| exact Hk].
  destruct Hall as (Ha & Hb & Hc & Hd & He & Hf).
  rewrite lookup_insert_ne by exact Hf.
  set (I := fun d : record => d !! k = Some v).
  apply (keeps_result I (fill_contact env soup) d5 (Ok tt));
    [apply frame_contact, He | exact H6 |].
  apply (keeps_result I (fill_benefits env soup) d4 (Ok tt));
    [apply frame_benefits, Hd | exact H5 |].
  apply (keeps_result I (fill_other env soup) d3 (Ok tt));
    [apply frame_other, Hc | exact H4 |].
  apply (keeps_result I (fill_requirement env soup) d2 (Ok tt));
    [apply frame_requirement, Hb | exact H3 |].
  apply (keeps_result I (fill_description env soup) d1 (Ok tt));
    [apply frame_description, Ha | exact H2 |].
  exact H.
Qed.

Lemma py_getitem_title o v :
  py_getitem o "title" = Ok v ->
  forall f s, py_strip f v = Ok s -> exists t, title_of o = Some t /\ s = f t.
Proof.
  intros Hg f s Hs. unfold py_getitem in Hg. unfold title_of.
  destruct o as [[name attrs cs | x | x] |]; try discriminate. simpl.
  destruct (attrs !! "title") as [a |]; [| discriminate].
  injection Hg as ->. destruct v as [t | l]; [| discriminate].
  injection Hs as <-. exists t. auto.
Qed.

(** What lines 84 to 89 leave in the dictionary when they run through. *)
Lemma fill_required_ok env soup d d1 :
  fill_required env soup d = (Ok tt, d1) ->
  exists c t p,
    title_of (company_anchor soup) = Some c /\
    title_of (title_heading soup) = Some t /\
    description_paragraph soup = Some p /\
    d1 = <["工作內容" := VStr (stripped_text env p)]>
           (<["工作職稱" := VStr (strip env t)]>
              (<["公司名稱" := VStr (strip env c)]> d)).
Proof.
  unfold fill_required. intros H.
  apply bind_ok in H as (a & s0 & Ha & H). apply lift_ok in Ha as [Ha ->].
  apply bind_ok in H as (ta & s0 & Hta & H). apply lift_ok in Hta as [Hta ->].
  apply bind_ok in H as (c' & s0 & Hc & H). apply lift_ok in Hc as [Hc ->].
  apply bind_ok in H as ([] & s1 & H1 & H). unfold setitem in H1. injection H1 as <-.
  apply bind_ok in H as (h & s0 & Hh & H). apply lift_ok in Hh as [Hh ->].
  apply bind_ok in H as (h1 & s0 & Hh1 & H). apply lift_ok in Hh1 as [Hh1 ->].
  apply bind_ok in H as (tt' & s0 & Htt & H). apply lift_ok in Htt as [Htt ->].
  apply bind_ok in H as (t' & s0 & Ht & H). apply lift_ok in Ht as [Ht ->].
  apply bind_ok in H as ([] & s2 & H2 & H). unfold setitem in H2. injection H2 as <-.
  apply bind_ok in H as (p & s0 & Hp & H). apply lift_ok in Hp as [Hp ->].
  apply bind_ok in H as (tx & s0 & Htx & H). apply lift_ok in Htx as [Htx ->].
  unfold setitem in H. injection H as <-.
  simpl in Ha. injection Ha as <-.
  destruct (py_getitem_title _ _ Hta _ _ Hc) as (c & Hct & ->).
  simpl in Hh. injection Hh as <-.
  assert (h1 = title_heading soup) as ->.
  { unfold title_heading. destruct (find soup "div" _); [| discriminate].
    simpl in Hh1. injection Hh1 as <-. reflexivity. }
  destruct (py_getitem_title _ _ Htt _ _ Ht) as (t & Htt' & ->).
  simpl in Hp. injection Hp as <-.
  unfold description_paragraph.
  destruct (find soup "p" _) as [par |]; [| discriminate].
  simpl in Htx. injection Htx as <-.
  exists c, t, par. auto.
Qed.

(** X1. A record is returned only for a page that has the company anchor
    and the title heading, each with a [title] attribute, and the
    description paragraph; its company, title and description fields are
    the stripped attribute values and the stripped text of the paragraph. *)
Theorem required_fields (env : Env) (job_url : string) (st st' : State) (data : record) :
  parse_job env job_url st = (Ok (Some data), st') ->
  exists c t p,
    title_of (company_anchor (page_soup env st')) = Some c /\
    title_of (title_heading (page_soup env st')) = Some t /\
    description_paragraph (page_soup env st') = Some p /\
    data !! "公司名稱" = Some (VStr (strip env c)) /\
    data !! "工作職稱" = Some (VStr (strip env t)) /\
    data !! "工作內容" = Some (VStr (stripped_text env p)).
Proof.
  intros H. apply parse_job_page in H.
  apply extract_ok in H as (d1 & d2 & d3 & d4 & d5 & d6 &
                            H1 & H2 & H3 & H4 & H5 & H6 & ->).
  apply fill_required_ok in H1 as (c & t & p & Hc & Ht & Hp & ->).
  exists c, t, p. split; [exact Hc |]. split; [exact Ht |]. split; [exact Hp |].
  split; [| split].
  - eapply required_kept; try eassumption; [in_list |].
    rewrite !lookup_insert_ne by discriminate. apply lookup_insert_eq.
  - eapply required_kept; try eassumption; [in_list |].
    rewrite lookup_insert_ne by discriminate. apply lookup_insert_eq.
  - eapply required_kept; try eassumption; [in_list |].
    apply lookup_insert_eq.
Qed.

Lemma required_fields_witness :
  let run := parse_job site "https://www.104.com.tw/job/full" (initial_process, 0) in
  run = (Ok (Some (record_of run)), run.2) /\
  exists c t p,
    title_of (company_anchor (page_soup site run.2)) = Some c /\
    title_of (title_heading (page_soup site run.2)) = Some t /\
    description_paragraph (page_soup site run.2) = Some p /\
    record_of run !! "公司名稱" = Some (VStr (strip site c)) /\
    record_of run !! "工作職稱" = Some (VStr (strip site t)) /\
    record_of run !! "工作內容" = Some (VStr (stripped_text site p)).
Proof.
  intros run.
  assert (H : run = (Ok (Some (record_of run)), run.2)) by vm_refl.
  split; [exact H |].
  exact (required_fields site "https://www.104.com.tw/job/full" (initial_process, 0)
           run.2 (record_of run) H).
Defined.

(** ** The columns of the two tables *)

Lemma description_item_column env col item d d' :
  col ∈ description_set -> col <> "職務類別" ->
  heading env item = Some col ->
  description_item env item d = (Ok tt, d') ->
  is_Some (column_value env col item) /\ d' !! col = column_value env col item.
Proof.
  intros Hin Hne. unfold heading, description_item, column_value, bind, lift. simpl.
  destruct (find item "h3" []) as [h3 |]; [| discriminate].
  intros Hh. injection Hh as Hh. simpl. rewrite Hh.
  rewrite (bool_decide_eq_true_2 (col ∈ description_set)) by exact Hin.
  rewrite (bool_decide_eq_false_2 (col = "職務類別")) by exact Hne.
  case_bool_decide.
  - unfold setitem. intros H'. injection H' as <-.
    split; [eexists; reflexivity | apply lookup_insert_eq].
  - destruct (find item "p" []) as [p |]; simpl; [| discriminate].
    unfold setitem. intros H'. injection H' as <-.
    split; [eexists; reflexivity | apply lookup_insert_eq].
Qed.

Lemma requirement_item_column env col item d d' :
  col ∈ requirement_set -> col <> "接受身份" ->
  heading env item = Some col ->
  requirement_item env item d = (Ok tt, d') ->
  is_Some (column_value env col item) /\ d' !! col = column_value env col item.
Proof.
  intros Hin Hne. unfold heading, requirement_item, column_value, bind, lift. simpl.
  destruct (find item "h3" []) as [h3 |]; [| discriminate].
  intros Hh. injection Hh as Hh. simpl. rewrite Hh.
  rewrite (bool_decide_eq_true_2 (col ∈ requirement_set)) by exact Hin.
  rewrite (bool_decide_eq_false_2 (col = "接受身份")) by exact Hne.
  assert (col <> "工作待遇") as Hs.
  { intros ->. revert Hin. in_list. }
  rewrite (bool_decide_eq_false_2 (col = "工作待遇")) by exact Hs.
  destruct (find item "p" []) as [p |]; simpl; [| discriminate].
  unfold setitem. intros H'. injection H' as <-.
  split; [eexists; reflexivity | apply lookup_insert_eq].
Qed.

(** X2. For every column of the two tables other than the two list-valued
    ones, a record holds what the last row with that heading gives: for
    the salary the texts of all its [p] elements joined by single spaces,
    for the others the text of its first [p] element, which has to exist
    for a record to be returned at all. *)
Theorem column_fields (env : Env) (job_url : string) (st st' : State) (data : record)
    (col : string) (before after : list node) (item : node) :
  parse_job env job_url st = (Ok (Some data), st') ->
  col ∈ (description_set ++ requirement_set)%list ->
  col <> "職務類別" -> col <> "接受身份" ->
  column_rows col (page_soup env st') = (before ++ item :: after)%list ->
  heading env item = Some col ->
  (forall r, r ∈ after -> heading env r <> Some col) ->
  is_Some (column_value env col item) /\
  data !! col = column_value env col item.
Proof.
  intros H Hcol Hn1 Hn2 Hrows Hitem Hafter. apply parse_job_page in H.
  apply extract_ok in H as (d1 & d2 & d3 & d4 & d5 & d6 &
                            H1 & H2 & H3 & H4 & H5 & H6 & ->).
  set (I := fun d : record => d !! col = column_value env col item).
  unfold column_rows in Hrows. case_bool_decide as Hd.
  - apply fill_description_rows in H2. rewrite Hrows in H2.
    apply for_each_split in H2 as (da & db & Hb & Ha).
    destruct (description_item_column env col item da db Hd Hn1 Hitem Hb) as [Hs Hv].
    split; [exact Hs |]. destruct Hs as [v Hs]. rewrite Hs in Hv |- *.
    apply (sections_keep env (page_soup env st') job_url _ _ d3 d4 d5 d6);
      [exact Hcol | assumption.. |].
    apply (keeps_result (fun d : record => d !! col = Some v)
             (fill_requirement env (page_soup env st')) d2 (Ok tt)).
    { apply frame_requirement.
      assert (Forall (fun k => k ∉ requirement_set) description_set) as Hall by in_list.
      eapply Forall_forall in Hall; [exact Hall | exact Hd]. }
    { exact H3. }
    apply (keeps_result (fun d : record => d !! col = Some v)
             (for_each after (description_item env)) db (Ok tt)).
    { apply keeps_for_each. intros r Hr. apply keeps_description_item.
      intros col' v' _ Hh. apply keeps_lookup_setitem. intros ->.
      exact (Hafter r Hr Hh). }
    { exact Ha. }
    exact Hv.
  - assert (Hr : col ∈ requirement_set).
    { apply elem_of_app in Hcol as [Hc | Hc]; [contradiction | exact Hc]. }
    apply fill_requirement_rows in H3. rewrite Hrows in H3.
    apply for_each_split in H3 as (da & db & Hb & Ha).
    destruct (requirement_item_column env col item da db Hr Hn2 Hitem Hb) as [Hs Hv].
    split; [exact Hs |]. destruct Hs as [v Hs]. rewrite Hs in Hv |- *.
    apply (sections_keep env (page_soup env st') job_url _ _ d3 d4 d5 d6);
      [exact Hcol | assumption.. |].
    apply (keeps_result (fun d : record => d !! col = Some v)
             (for_each after (requirement_item env)) db (Ok tt)).
    { apply keeps_for_each. intros r Hr'. apply keeps_requirement_item.
      intros col' v' _ Hh. apply keeps_lookup_setitem. intros ->.
      exact (Hafter r Hr' Hh). }
    { exact Ha. }
    exact Hv.
Qed.

Lemma column_fields_witness :
  let run := parse_job site "https://www.104.com.tw/job/full" (initial_process, 0) in
  let place := row "上班地點" [el "p" [] [NavigableString "台北市"]] in
  run = (Ok (Some (record_of run)), run.2) /\
  column_rows "工作待遇" (page_soup site run.2)
    = ([category_row] ++ salary_row :: [place])%list /\
  heading site salary_row = Some "工作待遇" /\
  record_of run !! "工作待遇" = column_value site "工作待遇" salary_row /\
  column_value site "工作待遇" salary_row = Some (VStr "月薪 50,000元").
Proof.
  intros run place.
  assert (H1 : run = (Ok (Some (record_of run)), run.2)) by vm_refl.
  assert (H2 : column_rows "工作待遇" (page_soup site run.2)
               = ([category_row] ++ salary_row :: [place])%list) by vm_refl.
  assert (H3 : heading site salary_row = Some "工作待遇") by vm_refl.
  split; [exact H1 |]. split; [exact H2 |]. split; [exact H3 |]. split; [| vm_refl].
  apply (column_fields site "https://www.104.com.tw/job/full" (initial_process, 0) run.2
           (record_of run) "工作待遇" [category_row] [place] salary_row H1).
  - in_list.
  - discriminate.
  - discriminate.
  - exact H2.
  - exact H3.
  - apply Forall_forall. in_list.
Defined.

(** ** The optional sections, when they are there *)

(** X3. In every record, the other-conditions field is the stripped text
    of the paragraph lines 117-118 look for, and the benefits field the
    stripped text of the first paragraph of the benefits block; each holds
    the placeholder when the block or the paragraph in it is missing. *)
Theorem optional_text_fields (env : Env) (job_url : string) (st st' : State)
    (data : record) :
  parse_job env job_url st = (Ok (Some data), st') ->
  data !! "其他條件"
    = Some (VStr (default "無" (other_text env (page_soup env st')))) /\
  data !! "公司福利"
    = Some (VStr (default "無" (benefits_text env (page_soup env st')))).
Proof.
  intros H. apply parse_job_page in H.
  apply extract_ok in H as (d1 & d2 & d3 & d4 & d5 & d6 &
                            H1 & H2 & H3 & H4 & H5 & H6 & ->).
  pose proof (tables_keep_placeholder env _ "其他條件" d1 d2 d3 ltac:(in_list) H1 H2 H3)
    as Ho.
  pose proof (tables_keep_placeholder env _ "公司福利" d1 d2 d3 ltac:(in_list) H1 H2 H3)
    as Hb.
  set (soup := page_soup env st') in *.
  assert (Ho4 : d4 !! "其他條件" = Some (VStr (default "無" (other_text env soup)))).
  { rewrite fill_other_exact in H4. injection H4 as <-.
    destruct (other_text env soup); simpl; [apply lookup_insert_eq | exact Ho]. }
  assert (Hb4 : d4 !! "公司福利" = Some (VStr "無")).
  { apply (keeps_result (fun d : record => d !! "公司福利" = Some (VStr "無"))
             (fill_other env soup) d3 (Ok tt));
      [apply frame_other; discriminate | exact H4 | exact Hb]. }
  assert (Ho5 : d5 !! "其他條件" = Some (VStr (default "無" (other_text env soup)))).
  { apply (keeps_result
             (fun d : record =>
                d !! "其他條件" = Some (VStr (default "無" (other_text env soup))))
             (fill_benefits env soup) d4 (Ok tt));
      [apply frame_benefits; discriminate | exact H5 | exact Ho4]. }
  assert (Hb5 : d5 !! "公司福利" = Some (VStr (default "無" (benefits_text env soup)))).
  { rewrite fill_benefits_exact in H5. injection H5 as <-.
    destruct (benefits_text env soup); simpl; [apply lookup_insert_eq | exact Hb4]. }
  split.
  - rewrite lookup_insert_ne by discriminate.
    apply (keeps_result
             (fun d : record =>
                d !! "其他條件" = Some (VStr (default "無" (other_text env soup))))
             (fill_contact env soup) d5 (Ok tt));
      [apply frame_contact; in_list | exact H6 | exact Ho5].
  - rewrite lookup_insert_ne by discriminate.
    apply (keeps_result
             (fun d : record =>
                d !! "公司福利" = Some (VStr (default "無" (benefits_text env soup))))
             (fill_contact env soup) d5 (Ok tt));
      [apply frame_contact; in_list | exact H6 | exact Hb5].
Qed.

Lemma optional_text_fields_witness :
  let run := parse_job site "https://www.104.com.tw/job/full" (initial_process, 0) in
  run = (Ok (Some (record_of run)), run.2) /\
  (record_of run !! "其他條件"
     = Some (VStr (default "無" (other_text site (page_soup site run.2)))) /\
   record_of run !! "公司福利"
     = Some (VStr (default "無" (benefits_text site (page_soup site run.2))))) /\
  other_text site (page_soup site run.2) = Some "具團隊合作精神".
Proof.
  intros run.
  assert (H : run = (Ok (Some (record_of run)), run.2)) by vm_refl.
  split; [exact H |]. split; [| vm_refl].
  exact (optional_text_fields site "https://www.104.com.tw/job/full" (initial_process, 0)
           run.2 (record_of run) H).
Defined.

(** X4. In every record, the contact-name and contact-method fields are
    the stripped texts of the first and the second cell of the contact
    table; a field whose cell is missing holds the placeholder, and cells
    after the second are ignored. *)
Theorem contact_fields (env : Env) (job_url : string) (st st' : State) (data : record) :
  parse_job env job_url st = (Ok (Some data), st') ->
  data !! "聯絡人"
    = Some (VStr (default "無" (contact_info env (page_soup env st') !! 0))) /\
  data !! "聯絡方式"
    = Some (VStr (default "無" (contact_info env (page_soup env st') !! 1))).
Proof.
  intros H. apply parse_job_page in H.
  apply extract_ok in H as (d1 & d2 & d3 & d4 & d5 & d6 &
                            H1 & H2 & H3 & H4 & H5 & H6 & ->).
  assert (Hk : forall k, k ∈ ["聯絡人"; "聯絡方式"] -> d5 !! k = Some (VStr "無")).
  { intros k Hk.
    assert (Forall (fun k => k <> "其他條件" /\ k <> "公司福利")
              ["聯絡人"; "聯絡方式"]) as Hall by in_list.
    eapply Forall_forall in Hall; [| exact Hk]. destruct Hall as [Ha Hb].
    set (I := fun d : record => d !! k = Some (VStr "無")).
    apply (keeps_result I (fill_benefits env (page_soup env st')) d4 (Ok tt));
      [apply frame_benefits, Hb | exact H5 |].
    apply (keeps_result I (fill_other env (page_soup env st')) d3 (Ok tt));
      [apply frame_other, Ha | exact H4 |].
    apply (tables_keep_placeholder env (page_soup env st') k d1 d2 d3);
      [| assumption..].
    apply elem_of_cons in Hk as [-> | Hk]; [in_list |].
    apply elem_of_cons in Hk as [-> | Hk]; [in_list |].
    apply elem_of_nil in Hk. contradiction. }
  pose proof (Hk "聯絡人" ltac:(in_list)) as Hn.
  pose proof (Hk "聯絡方式" ltac:(in_list)) as Hm.
  rewrite fill_contact_exact in H6. injection H6 as <-.
  rewrite !lookup_insert_ne by discriminate.
  destruct (contact_info env _) as [| a [| b rest]]; simpl.
  - split; assumption.
  - split; [apply lookup_insert_eq |].
    rewrite lookup_insert_ne by discriminate. exact Hm.
  - split; [| apply lookup_insert_eq].
    rewrite lookup_insert_ne by discriminate. apply lookup_insert_eq.
Qed.

Lemma contact_fields_witness :
  let run := parse_job site "https://www.104.com.tw/job/full" (initial_process, 0) in
  run = (Ok (Some (record_of run)), run.2) /\
  (record_of run !! "聯絡人"
     = Some (VStr (default "無" (contact_info site (page_soup site run.2) !! 0))) /\
   record_of run !! "聯絡方式"
     = Some (VStr (default "無" (contact_info site (page_soup site run.2) !! 1)))) /\
  contact_info site (page_soup site run.2) = ["王小姐"; "02-12345678"].
Proof.
  intros run.
  assert (H : run = (Ok (Some (record_of run)), run.2)) by vm_refl.
  split; [exact H |]. split; [| vm_refl].
  exact (contact_fields site "https://www.104.com.tw/job/full" (initial_process, 0)
           run.2 (record_of run) H).
Defined.

(** ** Which pages give a record *)

Lemma for_each_ok_inv {S A} (l : list A) (body : A -> Py S unit) s s' :
  for_each l body s = (Ok tt, s') ->
  Forall (fun x => exists s1 s2, body x s1 = (Ok tt, s2)) l.
Proof.
  revert s. induction l as [| x l IH]; intros s H; simpl in H.
  - constructor.
  - apply bind_ok in H as ([] & s1 & Hx & Hl).
    constructor; [eauto | eapply IH, Hl].
Qed.

Lemma for_each_ok {S A} (l : list A) (body : A -> Py S unit) :
  Forall (fun x => forall s, exists s', body x s = (Ok tt, s')) l ->
  forall s, exists s', for_each l body s = (Ok tt, s').
Proof.
  induction 1 as [| x l Hx Hl IH]; intros s; simpl.
  - eexists. reflexivity.
  - destruct (Hx s) as [s1 H1]. destruct (IH s1) as [s2 H2].
    exists s2. unfold bind. rewrite H1. exact H2.
Qed.

Lemma description_item_ok env item :
  (exists d d', description_item env item d = (Ok tt, d')) <->
  description_row_ok env item.
Proof.
  unfold description_row_ok, heading, description_item, bind, lift, setitem, ret.
  simpl. destruct (find item "h3" []) as [h3 |]; simpl.
  - split.
    + intros (d & d' & H). exists (strip env (text h3)). split; [reflexivity |].
      intros Hin Hn1 Hn2 Hp.
      rewrite (bool_decide_eq_true_2 _ Hin), (bool_decide_eq_false_2 _ Hn1),
        (bool_decide_eq_false_2 _ Hn2), Hp in H. discriminate H.
    + intros (col & Hcol & Hp). injection Hcol as <-.
      exists initial_data.
      repeat case_bool_decide; try (eexists; reflexivity).
      destruct (find item "p" []) as [p |]; simpl; [eexists; reflexivity |].
      exfalso. apply Hp; auto.
  - split.
    + intros (d & d' & H). discriminate H.
    + intros (col & Hcol & _). discriminate Hcol.
Qed.

Lemma requirement_item_ok env item :
  (exists d d', requirement_item env item d = (Ok tt, d')) <->
  requirement_row_ok env item.
Proof.
  unfold requirement_row_ok, heading, requirement_item, bind, lift, setitem, ret.
  simpl. destruct (find item "h3" []) as [h3 |]; simpl.
  - split.
    + intros (d & d' & H). exists (strip env (text h3)). split; [reflexivity |].
      intros Hin Hn1 Hp.
      rewrite (bool_decide_eq_true_2 _ Hin), (bool_decide_eq_false_2 _ Hn1), Hp in H.
      discriminate H.
    + intros (col & Hcol & Hp). injection Hcol as <-.
      exists initial_data.
      repeat case_bool_decide; try (eexists; reflexivity).
      destruct (find item "p" []) as [p |]; simpl; [eexists; reflexivity |].
      exfalso. apply Hp; auto.
  - split.
    + intros (d & d' & H). discriminate H.
    + intros (col & Hcol & _). discriminate Hcol.
Qed.

(** Whether a row runs through does not depend on the dictionary. *)
Lemma description_item_any env item d0 d0' d :
  description_item env item d0 = (Ok tt, d0') ->
  exists d', description_item env item d = (Ok tt, d').
Proof.
  unfold description_item, bind, lift, setitem, ret. simpl.
  destruct (find item "h3" []) as [h3 |]; simpl; [| discriminate].
  repeat case_bool_decide; try (intros _; eexists; reflexivity).
  destruct (find item "p" []) as [p |]; simpl; [| discriminate].
  intros _. eexists. reflexivity.
Qed.

Lemma requirement_item_any env item d0 d0' d :
  requirement_item env item d0 = (Ok tt, d0') ->
  exists d', requirement_item env item d = (Ok tt, d').
Proof.
  unfold requirement_item, bind, lift, setitem, ret. simpl.
  destruct (find item "h3" []) as [h3 |]; simpl; [| discriminate].
  repeat case_bool_decide; try (intros _; eexists; reflexivity).
  destruct (find item "p" []) as [p |]; simpl; [| discriminate].
  intros _. eexists. reflexivity.
Qed.

Lemma fill_description_table env soup d d' :
  fill_description env soup d = (Ok tt, d') ->
  find soup "div" [("class", "job-description-table row")] <> None.
Proof.
  unfold fill_description, bind, lift. simpl.
  destruct (find soup "div" _); [discriminate | discriminate].
Qed.

Lemma fill_requirement_table env soup d d' :
  fill_requirement env soup d = (Ok tt, d') ->
  find soup "div" [("class", "job-requirement-table row")] <> None.
Proof.
  unfold fill_requirement, bind, lift. simpl.
  destruct (find soup "div" _); [discriminate | discriminate].
Qed.

Lemma extract_needs_page_ok env soup url data :
  extract env soup url = Ok data -> page_ok env soup.
Proof.
  intros H.
  apply extract_ok in H as (d1 & d2 & d3 & d4 & d5 & d6 &
                            H1 & H2 & H3 & H4 & H5 & H6 & ->).
  apply fill_required_ok in H1 as (c & t & p & Hc & Ht & Hp & ->).
  unfold page_ok. rewrite Hc, Ht, Hp.
  split; [discriminate |]. split; [discriminate |]. split; [discriminate |].
  pose proof (fill_description_table env soup _ _ H2) as Hdt.
  pose proof (fill_requirement_table env soup _ _ H3) as Hrt.
  split; [exact Hdt |]. split; [| split; [exact Hrt |]].
  - apply fill_description_rows, for_each_ok_inv in H2.
    eapply Forall_impl; [exact H2 |]. intros item (s1 & s2 & Hi).
    apply description_item_ok. eauto.
  - apply fill_requirement_rows, for_each_ok_inv in H3.
    eapply Forall_impl; [exact H3 |]. intros item (s1 & s2 & Hi).
    apply requirement_item_ok. eauto.
Qed.

Lemma page_ok_tables env soup :
  page_ok env soup ->
  exists d, (fill_required env soup ;; fill_description env soup ;;
             fill_requirement env soup) initial_data = (Ok tt, d).
Proof.
  intros (Hc & Ht & Hp & Hdt & Hdr & Hrt & Hrr).
  assert (exists d1, fill_required env soup initial_data = (Ok tt, d1)) as [d1 H1].
  { unfold title_of, company_anchor, title_heading, description_paragraph in Hc, Ht, Hp.
    generalize initial_data. intros d0.
    unfold fill_required, bind, lift, setitem. simpl.
    destruct (find soup "a" _) as [[n1 a1 c1 | x | x] |]; try contradiction.
    simpl in Hc |- *. destruct (a1 !! "title") as [[s1 | l1] |]; try contradiction.
    simpl.
    destruct (find soup "div" _) as [header |]; [| contradiction]. simpl.
    destruct (find header "h1" []) as [[n2 a2 c2 | x | x] |]; try contradiction.
    simpl in Ht |- *. destruct (a2 !! "title") as [[s2 | l2] |]; try contradiction.
    simpl.
    destruct (find soup "p" _) as [par |]; [| contradiction]. simpl.
    eexists. reflexivity. }
  assert (exists d2, fill_description env soup d1 = (Ok tt, d2)) as [d2 H2].
  { unfold fill_description, bind, lift. simpl.
    unfold description_rows in Hdr.
    destruct (find soup "div" [("class", "job-description-table row")]) as [table |];
      [| contradiction]. simpl.
    apply for_each_ok. eapply Forall_impl; [exact Hdr |].
    intros item Hi d. apply description_item_ok in Hi as (d0 & d0' & Hi).
    eapply description_item_any, Hi. }
  assert (exists d3, fill_requirement env soup d2 = (Ok tt, d3)) as [d3 H3].
  { unfold fill_requirement, bind, lift. simpl.
    unfold requirement_rows in Hrr.
    destruct (find soup "div" [("class", "job-requirement-table row")]) as [table |];
      [| contradiction]. simpl.
    apply for_each_ok. eapply Forall_impl; [exact Hrr |].
    intros item Hi d. apply requirement_item_ok in Hi as (d0 & d0' & Hi).
    eapply requirement_item_any, Hi. }
  exists d3. unfold bind. rewrite H1, H2. exact H3.
Qed.

(** X5. [extract] returns a record exactly for the pages that have the
    company anchor and the title heading with their [title] attributes,
    the description paragraph, both tables, a heading in every table row
    and a [p] element in every row of a plain column; nothing else on the
    page can make it fail. *)
Theorem extract_succeeds_iff (env : Env) (soup : node) (job_url : string) :
  (exists data, extract env soup job_url = Ok data) <-> page_ok env soup.
Proof.
  split.
  - intros [data H]. eapply extract_needs_page_ok, H.
  - intros H. apply page_ok_tables in H as [d H].
    eapply extract_total, H.
Qed.

(** X6. When the page has loaded, [parse_job] returns a record if the
    page is one [extract] accepts, and otherwise returns [None] and
    appends exactly one entry for the URL to [error_log]. *)
Theorem parse_job_outcome (env : Env) (job_url : string) (st st1 : State) (soup : node) :
  load_page env job_url st = (Ok soup, st1) ->
  (page_ok env soup ->
   exists data, parse_job env job_url st = (Ok (Some data), st1)) /\
  (~ page_ok env soup ->
   exists msg, parse_job env job_url st = (Ok None, logged st1 (job_url, msg))).
Proof.
  intros Hl. unfold parse_job, try_except, bind, lift, ret. rewrite Hl.
  pose proof (args_ok_extract env soup job_url) as Ha.
  split; intros Hp.
  - apply page_ok_tables in Hp as [d Hp].
    destruct (extract_total env soup job_url d Hp) as [data Hx].
    exists data. rewrite Hx. reflexivity.
  - destruct (extract env soup job_url) as [data | e] eqn:Hx.
    + exfalso. apply Hp. eapply extract_needs_page_ok, Hx.
    + simpl in Ha. destruct st1 as [p k].
      unfold handle_error, bind, lift, error_log_append, ret, logged.
      destruct (exc_args e) as [| a l]; [contradiction |].
      destruct (last_call_stack env e) as [[fileName lineNum] funcName].
      eexists. reflexivity.
Qed.

Lemma parse_job_outcome_witness :
  let st := (initial_process, 0) in
  let run := load_page site "https://www.104.com.tw/job/flaky" st in
  let soup := site_parser (render untitled_page) in
  run = (Ok soup, run.2) /\
  ~ page_ok site soup /\
  exists msg,
    parse_job site "https://www.104.com.tw/job/flaky" st
    = (Ok None, logged run.2 ("https://www.104.com.tw/job/flaky", msg)).
Proof.
  intros st run soup.
  assert (H : run = (Ok soup, run.2)) by vm_refl.
  assert (Hn : ~ page_ok site soup).
  { intros (_ & Ht & _). apply Ht. vm_refl. }
  split; [exact H |]. split; [exact Hn |].
  exact (proj2 (parse_job_outcome site "https://www.104.com.tw/job/flaky" st run.2 soup H)
           Hn).
Defined.

(** ** The browser of a process *)

Lemma load_page_with_driver env url st d :
  threadLocal st.1 = Some d ->
  let r := web env st.2 (Navigate url) in
  load_page env url st
  = (match resp_error r with
     | Some e => Raise e
     | None =>
         match wait_until (negb (bool_decide (resp_page r = page_source d)))
                 (driver_after r) with
         | Ok _ => Ok (html_parser env (resp_page r))
         | Raise e => Raise e
         end
     end, navigated st r).
Proof.
  destruct st as [p k]. simpl. intros Hd.
  unfold load_page, bind, get_driver_wait, driver_get, lift, ret, navigated. simpl.
  rewrite Hd. destruct (resp_error _); [reflexivity |]. simpl.
  destruct (wait_until _ _); reflexivity.
Qed.

Lemma handle_error_state env url e st :
  (handle_error env url e st).2.2 = st.2 /\
  threadLocal (handle_error env url e st).2.1 = threadLocal st.1.
Proof.
  destruct st as [p k]. unfold handle_error, bind, lift, error_log_append, ret.
  destruct (exc_args e); simpl; [auto |].
  destruct (last_call_stack env e) as [[fileName lineNum] funcName]. simpl. auto.
Qed.

(** X7. In a process that has a browser, [parse_job] makes exactly one
    browser action, the navigation to the job, and starts no second
    browser; whatever comes out, the driver of the process afterwards
    shows what that navigation gave. *)
Theorem parse_job_one_navigation (env : Env) (job_url : string) (st : State) (d : Driver) :
  threadLocal st.1 = Some d ->
  (parse_job env job_url st).2.2 = S st.2 /\
  threadLocal (parse_job env job_url st).2.1
  = Some (driver_after (web env st.2 (Navigate job_url))).
Proof.
  intros Hd. unfold parse_job, try_except, bind, lift, ret.
  rewrite (load_page_with_driver env job_url st d Hd).
  set (r := web env st.2 (Navigate job_url)).
  assert (Hh : forall e,
             (handle_error env job_url e (navigated st r)).2.2 = S st.2 /\
             threadLocal (handle_error env job_url e (navigated st r)).2.1
             = Some (driver_after r)).
  { intros e. destruct (handle_error_state env job_url e (navigated st r)) as [H1 H2].
    rewrite H1, H2. auto. }
  destruct (resp_error r) as [e |]; [apply Hh |].
  destruct (wait_until _ _) as [[] | e]; [| apply Hh].
  destruct (extract env _ job_url) as [data | e]; [auto | apply Hh].
Qed.

Lemma parse_job_one_navigation_witness :
  let st := (parse_job site "https://www.104.com.tw/job/full" (initial_process, 0)).2 in
  let d := driver_after (site_web 1 (Navigate "https://www.104.com.tw/job/full")) in
  threadLocal st.1 = Some d /\
  (parse_job site "https://www.104.com.tw/job/bare" st).2.2 = S st.2 /\
  threadLocal (parse_job site "https://www.104.com.tw/job/bare" st).2.1
  = Some (driver_after (web site st.2 (Navigate "https://www.104.com.tw/job/bare"))).
Proof.
  intros st d.
  assert (H : threadLocal st.1 = Some d) by vm_refl.
  split; [exact H |].
  exact (parse_job_one_navigation site "https://www.104.com.tw/job/bare" st d H).
Defined.

(** X8. If the navigation gives a page whose source equals the source the
    driver held before it, [parse_job] fails whatever the page contains:
    the argument of [wait.until] is then [False], the call raises a
    [TypeError], and [parse_job] returns [None] with an entry for it. So a
    process that is sent to the page it already shows loses that job. *)
Theorem unchanged_page_fails (env : Env) (job_url : string) (st : State) (d : Driver) :
  threadLocal st.1 = Some d ->
  resp_error (web env st.2 (Navigate job_url)) = None ->
  resp_page (web env st.2 (Navigate job_url)) = page_source d ->
  parse_job env job_url st
  = handle_error env job_url (Exn "TypeError" ["'bool' object is not callable"])
      (navigated st (web env st.2 (Navigate job_url))) /\
  (parse_job env job_url st).1 = Ok None.
Proof.
  intros Hd He Hp.
  assert (H : parse_job env job_url st
              = handle_error env job_url (Exn "TypeError" ["'bool' object is not callable"])
                  (navigated st (web env st.2 (Navigate job_url)))).
  { unfold parse_job, try_except, bind, lift, ret.
    rewrite (load_page_with_driver env job_url st d Hd), He, Hp.
    rewrite bool_decide_eq_true_2 by reflexivity. reflexivity. }
  split; [exact H |]. rewrite H.
  unfold handle_error, bind, lift, error_log_append, ret. simpl.
  destruct (last_call_stack env _) as [[fileName lineNum] funcName].
  destruct (navigated st _) as [p k]. reflexivity.
Qed.

Lemma unchanged_page_fails_witness :
  let url := "https://www.104.com.tw/job/full" in
  let st := (parse_job site url (initial_process, 0)).2 in
  let d := driver_after (site_web 1 (Navigate url)) in
  threadLocal st.1 = Some d /\
  resp_error (web site st.2 (Navigate url)) = None /\
  resp_page (web site st.2 (Navigate url)) = page_source d /\
  (parse_job site url (initial_process, 0)).1
    = Ok (Some (record_of (parse_job site url (initial_process, 0)))) /\
  (parse_job site url st).1 = Ok None.
Proof.
  intros url st d.
  assert (H1 : threadLocal st.1 = Some d) by vm_refl.
  assert (H2 : resp_error (web site st.2 (Navigate url)) = None) by vm_refl.
  assert (H3 : resp_page (web site st.2 (Navigate url)) = page_source d) by vm_refl.
  split; [exact H1 |]. split; [exact H2 |]. split; [exact H3 |]. split; [vm_refl |].
  exact (proj2 (unchanged_page_fails site url st d H1 H2 H3)).
Defined.

(** X9. If the first browser action of [parse_job] raises an exception
    whose [args] are empty, the handler fails on [e.args[0]]: [parse_job]
    raises [IndexError] to its caller and appends nothing to
    [error_log]. *)
Theorem argless_exception_escapes (env : Env) (job_url : string) (st : State) (e : exn) :
  resp_error (web env st.2 (first_action st job_url)) = Some e ->
  exc_args e = [] ->
  (parse_job env job_url st).1 = Raise (Exn "IndexError" ["tuple index out of range"]) /\
  error_log (parse_job env job_url st).2.1 = error_log st.1.
Proof.
  destruct st as [p k]. unfold first_action. simpl. intros He Ha.
  unfold parse_job, try_except, load_page, bind, get_driver_wait, driver_get.
  simpl. destruct (threadLocal p) as [d |]; rewrite He;
    unfold handle_error, bind, lift; rewrite Ha; simpl; auto.
Qed.

Lemma argless_exception_escapes_witness :
  let st := (initial_process, 0) in
  let e := Exn "WebDriverException" [] in
  resp_error (web mute_site st.2 (first_action st "https://www.104.com.tw/job/full"))
    = Some e /\
  exc_args e = [] /\
  (parse_job mute_site "https://www.104.com.tw/job/full" st).1
    = Raise (Exn "IndexError" ["tuple index out of range"]) /\
  error_log (parse_job mute_site "https://www.104.com.tw/job/full" st).2.1
    = error_log st.1.
Proof.
  intros st e. split; [reflexivity |]. split; [reflexivity |].
  exact (argless_exception_escapes mute_site "https://www.104.com.tw/job/full" st e
           eq_refl eq_refl).
Defined.

(** ** The links of a listing page *)

Lemma job_link_step (job : node) (acc : list string) :
  bind (lift (py_find (Some job) "a" [("class", "js-job-link")]))
    (fun a => bind (lift (py_getitem a "href"))
       (fun href => bind (lift (https_link href))
          (fun job_url job_urls => (Ok tt, app job_urls [job_url])))) acc
  = match link_of job with
    | Some url => (Ok tt, acc ++ [url])%list
    | None =>
        (match py_getitem (find job "a" [("class", "js-job-link")]) "href" with
         | Ok href =>
             match https_link href with
             | Ok _ => Ok tt
             | Raise e => Raise e
             end
         | Raise e => Raise e
         end, acc)
    end.
Proof.
  unfold link_of, bind, lift. simpl.
  destruct (find job "a" _) as [[name attrs cs | s | s] |]; simpl; try reflexivity.
  destruct (attrs !! "href") as [[href | l] |]; reflexivity.
Qed.

Lemma link_of_none_raises (job : node) :
  link_of job = None ->
  exists e,
    match py_getitem (find job "a" [("class", "js-job-link")]) "href" with
    | Ok href =>
        match https_link href with
        | Ok _ => Ok tt
        | Raise e => Raise e
        end
    | Raise e => Raise e
    end = Raise e.
Proof.
  unfold link_of.
  destruct (find job "a" _) as [[name attrs cs | s | s] |]; simpl;
    try (intros _; eexists; reflexivity).
  destruct (attrs !! "href") as [[href | l] |]; simpl;
    try discriminate; intros _; eexists; reflexivity.
Qed.

Lemma for_each_cons {S A} (x : A) (l : list A) (body : A -> Py S unit) s :
  for_each (x :: l) body s
  = match body x s with
    | (Ok _, s1) => for_each l body s1
    | (Raise e, s1) => (Raise e, s1)
    end.
Proof. reflexivity. Qed.

Lemma job_urls_loop_exact (entries : list node) (acc : list string) :
  let body := fun job : node =>
    do a <- lift (py_find (Some job) "a" [("class", "js-job-link")]);
    do href <- lift (py_getitem a "href");
    do job_url <- lift (https_link href);
    fun job_urls : list string => (Ok tt, app job_urls [job_url]) in
  (forall new, links_of entries = Some new ->
               for_each entries body acc = (Ok tt, acc ++ new)%list) /\
  (links_of entries = None ->
   exists e acc', for_each entries body acc = (Raise e, acc')).
Proof.
  intros body. revert acc.
  induction entries as [| job entries IH]; intros acc; cbn [links_of].
  - split; [| discriminate]. intros new H. injection H as <-.
    simpl. unfold ret. rewrite app_nil_r. reflexivity.
  - rewrite for_each_cons. unfold body at 1 3. rewrite job_link_step.
    destruct (link_of job) as [url |] eqn:El.
    + destruct (IH (acc ++ [url])%list) as [IH1 IH2].
      destruct (links_of entries) as [urls |].
      * split; [| discriminate]. intros new H. injection H as <-.
        rewrite (IH1 urls eq_refl), <- app_assoc. reflexivity.
      * split; [discriminate |]. intros _. apply IH2. reflexivity.
    + split; [discriminate |]. intros _.
      destruct (link_of_none_raises job El) as [e He]. rewrite He. eauto.
Qed.

(** X10. [get_job_urls] returns a list exactly when every job entry of
    the page has a [js-job-link] anchor with an [href], and the list is
    then the entries' links in document order; one entry without a link
    makes the call raise, so that no link of that page is returned. *)
Theorem get_job_urls_all_or_nothing (env : Env) (page_source : string)
    (urls : list string) :
  get_job_urls env page_source = Ok urls <->
  links_of (job_entries (html_parser env page_source)) = Some urls.
Proof.
  unfold get_job_urls, job_entries.
  destruct (job_urls_loop_exact
              (find_all (html_parser env page_source) "article"
                 [("class", "js-job-item")]) []) as [H1 H2].
  destruct (links_of _) as [new |].
  - rewrite (H1 new eq_refl). simpl. split; intros E; injection E as <-; reflexivity.
  - destruct (H2 eq_refl) as (e & acc' & H). rewrite H. split; discriminate.
Qed.

(** ** The pool *)

Lemma run_tasks_pure env {A B} (f : A -> Py State B) (g : A -> result B)
    (tasks : list A) i workers k :
  (forall x s, f x s = (g x, s)) ->
  exists workers',
    run_tasks env f i tasks workers k = (results_of g tasks, workers', k).
Proof.
  intros Hf. revert i workers.
  induction tasks as [| x tasks IH]; intros i workers; cbn [run_tasks results_of].
  - eexists. reflexivity.
  - rewrite Hf. destruct (g x) as [y | e].
    + destruct (IH (S i) (<[worker_of env i := workers (worker_of env i)]> workers))
        as [ws H].
      rewrite H. destruct (results_of g tasks); eexists; reflexivity.
    + eexists. reflexivity.
Qed.

(** X11. An [imap] of tasks that touch neither the globals nor the
    browser gives the results of the tasks in their order, or the first
    exception, whatever worker runs which task, and leaves the state of the
    parent as it was. The job URLs of a run are therefore the links of the
    listing pages in page order. *)
Theorem pool_imap_pure (env : Env) {A B : Type} (g : A -> result B) (tasks : list A)
    (st : State) :
  pool_imap env (fun x => lift (g x)) tasks st = (results_of g tasks, st).
Proof.
  destruct st as [parent k]. unfold pool_imap.
  destruct (run_tasks_pure env (fun x => lift (g x)) g tasks 0 (fun _ => parent) k)
    as [ws H]; [reflexivity |].
  rewrite H. reflexivity.
Qed.

Lemma run_tasks_order env {A B} (f : A -> Py State B) (tasks : list A) i workers k
    ys workers' k' :
  run_tasks env f i tasks workers k = (Ok ys, workers', k') ->
  Forall2 (fun x y => exists s s', f x s = (Ok y, s')) tasks ys.
Proof.
  revert i workers k ys workers' k'.
  induction tasks as [| x tasks IH]; intros i workers k ys workers' k' H;
    simpl in H.
  - injection H as <- _ _. constructor.
  - destruct (f x (workers (worker_of env i), k)) as [[y | e] [p k1]] eqn:Ex;
      [| discriminate].
    destruct (run_tasks env f (S i) tasks _ k1) as [[[ys1 | e] ws] k2] eqn:Er;
      [| discriminate].
    injection H as <- _ _. constructor; [eauto | eapply IH, Er].
Qed.

(** X12. When an [imap] returns, it returns one result for each task, in
    the order of the tasks, each the result of the task function on that
    task in the state of some worker; the globals of the parent are as
    before. *)
Theorem pool_imap_in_order (env : Env) {A B : Type} (f : A -> Py State B)
    (tasks : list A) (st st' : State) (ys : list B) :
  pool_imap env f tasks st = (Ok ys, st') ->
  Forall2 (fun x y => exists s s', f x s = (Ok y, s')) tasks ys /\
  length ys = length tasks /\
  st'.1 = st.1.
Proof.
  destruct st as [parent k]. unfold pool_imap.
  destruct (run_tasks env f 0 tasks (fun _ => parent) k) as [[r ws] k'] eqn:E.
  intros H. injection H as -> <-.
  apply run_tasks_order in E.
  split; [exact E |]. split; [| reflexivity].
  symmetry. eapply Forall2_length, E.
Qed.

Lemma pool_imap_in_order_witness :
  let urls := ["https://www.104.com.tw/job/flaky"; "https://www.104.com.tw/job/bare"] in
  let out := pool_imap site (parse_job site) urls (initial_process, 0) in
  out = (Ok (result_get [] out.1), out.2) /\
  Forall2 (fun x y => exists s s', parse_job site x s = (Ok y, s')) urls
    (result_get [] out.1) /\
  length (result_get [] out.1) = length urls /\
  out.2.1 = initial_process.
Proof.
  intros urls out.
  assert (H : out = (Ok (result_get [] out.1), out.2)) by vm_refl.
  split; [exact H |].
  exact (pool_imap_in_order site (parse_job site) urls (initial_process, 0) out.2
           (result_get [] out.1) H).
Defined.

(** ** The retry loop *)

Lemma handle_error_log env url e s :
  error_log (handle_error env url e s).2.1 = error_log s.1 \/
  exists msg, error_log (handle_error env url e s).2.1 = (error_log s.1 ++ [(url, msg)])%list.
Proof.
  destruct s as [p k]. unfold handle_error, bind, lift, error_log_append, ret.
  destruct (exc_args e); simpl; [left; reflexivity |].
  destruct (last_call_stack env e) as [[fileName lineNum] funcName]. simpl.
  right. eexists. reflexivity.
Qed.

(** A call of [parse_job] appends at most one entry to [error_log]. *)
Lemma parse_job_log env url s :
  error_log (parse_job env url s).2.1 = error_log s.1 \/
  exists msg, error_log (parse_job env url s).2.1 = (error_log s.1 ++ [(url, msg)])%list.
Proof.
  unfold parse_job, try_except, bind, lift, ret.
  pose proof (load_page_error_log env url s) as Hlog.
  destruct (load_page env url s) as [[soup | e] s1]; simpl in Hlog.
  - destruct (extract env soup url) as [data | e].
    + left. exact Hlog.
    + rewrite <- Hlog. apply handle_error_log.
  - rewrite <- Hlog. apply handle_error_log.
Qed.

Lemma retry_loop env (logs : list (string * string)) (st st' : State)
    (data data' : list (option record)) :
  for_each logs
    (fun log (sd : State * list (option record)) =>
       match parse_job env log.1 sd.1 with
       | (Ok job, st') => (Ok tt, (st', app sd.2 [job]))
       | (Raise e, st') => (Raise e, (st', sd.2))
       end) (st, data) = (Ok tt, (st', data')) ->
  exists results new,
    data' = (data ++ results)%list /\
    Forall2 (fun log r => exists s s', parse_job env log.1 s = (Ok r, s')) logs results /\
    error_log st'.1 = (error_log st.1 ++ new)%list /\
    length new <= length logs.
Proof.
  revert st data. induction logs as [| log logs IH]; intros st data H.
  - simpl in H. unfold ret in H. injection H as <- <-.
    exists [], []. rewrite !app_nil_r. repeat split; [constructor | simpl; lia].
  - rewrite for_each_cons in H. cbn [fst snd] in H.
    pose proof (parse_job_log env log.1 st) as Hlog.
    destruct (parse_job env log.1 st) as [[job | e] st1] eqn:Ep; [| discriminate].
    apply IH in H as (results & new & -> & Hres & Hnew & Hlen).
    simpl in Hlog.
    exists (job :: results).
    destruct Hlog as [Hlog | [msg Hlog]]; rewrite Hlog in Hnew.
    + exists new. rewrite <- app_assoc. simpl.
      repeat split; [constructor; eauto | exact Hnew | lia].
    + exists ((log.1, msg) :: new). rewrite <- !app_assoc in *. simpl.
      repeat split; [constructor; eauto | exact Hnew | simpl; lia].
Qed.

(** X13. When lines 209 to 213 run through in a process whose [error_log]
    holds entries, they call [parse_job] once for each entry that was in
    [error_log] when they started, in that order, and append the results
    to [data]; entries the retries add themselves are not retried, and
    [error_log] is only ever extended. *)
Theorem retry_once_each (env : Env) (data data' : list (option record))
    (st st' : State) :
  retry_errors env data st = (Ok data', st') ->
  exists results new,
    data' = (data ++ results)%list /\
    Forall2 (fun log r => exists s s', parse_job env log.1 s = (Ok r, s'))
      (error_log st.1) results /\
    error_log st'.1 = (error_log st.1 ++ new)%list /\
    length new <= length (error_log st.1).
Proof.
  unfold retry_errors, bind. destruct (0 <? length (error_log st.1))%nat eqn:E.
  - intros H.
    destruct (for_each _ _ (st, data)) as [[[] | e] [st1 data1]] eqn:El;
      [| discriminate].
    injection H as <- <-. eapply retry_loop, El.
  - apply Nat.ltb_ge in E. unfold ret. intros H. injection H as <- <-.
    destruct (error_log st.1); [| simpl in E; lia].
    exists [], []. rewrite !app_nil_r. repeat split; [constructor | simpl; lia].
Qed.

Lemma retry_once_each_witness :
  let url := "https://www.104.com.tw/job/flaky" in
  let st := (parse_job site url (initial_process, 0)).2 in
  let out := retry_errors site [None] st in
  out = (Ok (result_get [] out.1), out.2) /\
  length (error_log st.1) = 1 /\
  length (result_get [] out.1) = 2 /\
  exists results new,
    result_get [] out.1 = ([None] ++ results)%list /\
    Forall2 (fun log r => exists s s', parse_job site log.1 s = (Ok r, s'))
      (error_log st.1) results /\
    error_log out.2.1 = (error_log st.1 ++ new)%list /\
    length new <= length (error_log st.1).
Proof.
  intros url st out.
  assert (H : out = (Ok (result_get [] out.1), out.2)) by vm_refl.
  split; [exact H |]. split; [vm_refl |]. split; [vm_refl |].
  exact (retry_once_each site [None] (result_get [] out.1) st out.2 H).
Defined.

(** ** More on the filters *)

Lemma select_sublist keep filter_col data kept :
  select keep filter_col data = Ok kept -> sublist kept data.
Proof.
  revert kept. induction data as [| job data IH]; intros kept H; simpl in H.
  - injection H as <-. constructor.
  - destruct (job !! filter_col) as [v |]; [| discriminate].
    destruct (select keep filter_col data) as [kept1 | e]; [| discriminate].
    injection H as <-. specialize (IH kept1 eq_refl).
    destruct (keep v); [apply sublist_skip | apply sublist_cons]; exact IH.
Qed.

Lemma rebind_loop_sublist {T} (step : T -> list record -> result (list record))
    (tokens : list T) data kept :
  (forall t d d', step t d = Ok d' -> sublist d' d) ->
  for_each tokens (fun t => rebind (step t)) data = (Ok tt, kept) ->
  sublist kept data.
Proof.
  intros Hs. revert data. induction tokens as [| t tokens IH]; intros data H.
  - simpl in H. unfold ret in H. injection H as <-. reflexivity.
  - rewrite for_each_cons in H. unfold rebind at 1 in H.
    destruct (step t data) as [d1 |] eqn:E; [| discriminate].
    transitivity d1; [apply IH, H | eapply Hs, E].
Qed.

Lemma filter_data_sublist filters data kept :
  filter_data filters data = (Ok tt, kept) -> sublist kept data.
Proof.
  unfold filter_data. revert data.
  induction filters as [| f filters IH]; intros data H.
  - simpl in H. unfold ret in H. injection H as <-. reflexivity.
  - rewrite for_each_cons in H.
    destruct (bind _ _ data) as [[[] | e] d2] eqn:E; [| discriminate].
    apply bind_ok in E as ([] & d1 & E1 & E2).
    apply rebind_loop_sublist in E1; [| intros; eapply select_sublist; eassumption].
    apply rebind_loop_sublist in E2; [| intros; eapply select_sublist; eassumption].
    transitivity d2; [apply IH, H |]. transitivity d1; assumption.
Qed.

(** X14. Whatever the configuration, filtering only removes records: when
    it runs through, what it keeps is a subsequence of its input, in the
    input's order, and so is no longer. *)
Theorem filter_data_shrinks (filters : list (string * FilterRule))
    (data kept : list record) :
  filter_data filters data = (Ok tt, kept) ->
  sublist kept data /\ length kept <= length data.
Proof.
  intros H. apply filter_data_sublist in H.
  split; [exact H | apply sublist_length, H].
Qed.

Lemma filter_data_shrinks_witness :
  let out := filter_data engineer_only (not_none sample_data) in
  out = (Ok tt, out.2) /\
  (sublist out.2 (not_none sample_data) /\ length out.2 <= length (not_none sample_data)) /\
  length out.2 = 0.
Proof.
  intros out.
  assert (H : out = (Ok tt, out.2)) by vm_refl.
  split; [exact H |]. split; [| vm_refl].
  exact (filter_data_shrinks engineer_only (not_none sample_data) out.2 H).
Defined.

Lemma select_missing keep filter_col data job :
  job ∈ data -> job !! filter_col = None ->
  select keep filter_col data = Raise (Exn "KeyError" [filter_col]).
Proof.
  intros Hin Hnone. induction data as [| j data IH]; simpl.
  - apply elem_of_nil in Hin. contradiction.
  - destruct (j !! filter_col) as [v |] eqn:Ej; [| reflexivity].
    apply elem_of_cons in Hin as [-> | Hin]; [congruence |].
    rewrite (IH Hin). reflexivity.
Qed.

(** X15. A filter with at least one token on a column that some record
    does not have makes the filtering raise [KeyError] with the column as
    its argument at the first token, and [data] stays as it was. *)
Theorem filter_unknown_column (filter_col : string) (rule : FilterRule)
    (rest : list (string * FilterRule)) (data : list record) (job : record) :
  job ∈ data -> job !! filter_col = None ->
  (tokens_of (includes rule) ++ tokens_of (excludes rule))%list <> [] ->
  filter_data ((filter_col, rule) :: rest) data
  = (Raise (Exn "KeyError" [filter_col]), data).
Proof.
  intros Hin Hnone Htok. unfold filter_data. rewrite for_each_cons. cbn [fst snd].
  destruct (tokens_of (includes rule)) as [| t ts].
  - destruct (tokens_of (excludes rule)) as [| t ts]; [contradiction |].
    simpl. unfold bind, ret, rebind.
    rewrite (select_missing _ filter_col data job Hin Hnone). reflexivity.
  - simpl. unfold bind, rebind.
    rewrite (select_missing _ filter_col data job Hin Hnone). reflexivity.
Qed.

Lemma filter_unknown_column_witness :
  let job := record_of (parse_job site "https://www.104.com.tw/job/bare" (initial_process, 0)) in
  let rule := {| includes := None; excludes := Some ["台北"] |} in
  job ∈ [job] /\ job !! "地區" = None /\
  (tokens_of (includes rule) ++ tokens_of (excludes rule))%list <> [] /\
  filter_data [("地區", rule)] [job] = (Raise (Exn "KeyError" ["地區"]), [job]).
Proof.
  intros job rule.
  assert (H1 : job ∈ [job]) by left.
  assert (H2 : job !! "地區" = None) by vm_refl.
  assert (H3 : (tokens_of (includes rule) ++ tokens_of (excludes rule))%list <> [])
    by discriminate.
  split; [exact H1 |]. split; [exact H2 |]. split; [exact H3 |].
  exact (filter_unknown_column "地區" rule [] [job] job H1 H2 H3).
Defined.

Lemma forallb_permutation {A} (p : A -> bool) (l l' : list A) :
  l ≡ₚ l' -> forallb p l = forallb p l'.
Proof.
  induction 1 as [| x l l' _ IH | x y l | l l' l'' _ IH1 _ IH2]; simpl.
  - reflexivity.
  - rewrite IH. reflexivity.
  - destruct (p x), (p y); reflexivity.
  - congruence.
Qed.

(** X16. When every record has the configured columns, the order of the
    entries of [config.filters] does not matter: any rearrangement keeps
    the same records. *)
Theorem filter_order_irrelevant (filters filters' : list (string * FilterRule))
    (data : list record) :
  (forall f, f ∈ filters -> has_column f.1 data) ->
  filters ≡ₚ filters' ->
  filter_data filters data = filter_data filters' data.
Proof.
  intros H Hp.
  rewrite (filter_data_filter filters data H).
  rewrite (filter_data_filter filters' data).
  - f_equal. apply filter_ext. intros job. unfold passes.
    apply forallb_permutation, Hp.
  - intros f Hf. apply H. rewrite Hp. exact Hf.
Qed.

Lemma filter_order_irrelevant_witness :
  let a := ("職務類別", {| includes := Some ["後端工程師"]; excludes := None |}) in
  let b := ("公司名稱", {| includes := None; excludes := Some ["銀行"] |}) in
  (forall f, f ∈ [a; b] -> has_column f.1 (not_none sample_data)) /\
  [a; b] ≡ₚ [b; a] /\
  filter_data [a; b] (not_none sample_data) = filter_data [b; a] (not_none sample_data) /\
  length (filter_data [a; b] (not_none sample_data)).2 = 2.
Proof.
  intros a b.
  assert (H1 : forall f, f ∈ [a; b] -> has_column f.1 (not_none sample_data)).
  { apply Forall_forall. repeat constructor;
      intros job Hjob; revert job Hjob; apply Forall_forall; in_list. }
  assert (H2 : [a; b] ≡ₚ [b; a]) by apply perm_swap.
  split; [exact H1 |]. split; [exact H2 |]. split; [| vm_refl].
  exact (filter_order_irrelevant [a; b] [b; a] (not_none sample_data) H1 H2).
Defined.

(** ** The counts of a run *)

Lemma not_none_length (data : list (option record)) :
  length (not_none data) <= length data.
Proof.
  unfold not_none. induction data as [| [job |] data IH]; [simpl; lia | | ].
  - change (omap id (Some job :: data)) with (job :: omap id data). simpl. lia.
  - change (omap id (None :: data)) with (omap id data). simpl. lia.
Qed.

(** X17. When lines 215 to 234 run through, the log holds the length of
    [data] as it was handed over, the number of its entries that are not
    [None], and the number of records kept, and these never grow along the
    way: kept records are a subsequence of the parsed ones. *)
Theorem counts_descend (filters : list (string * FilterRule))
    (data : list (option record)) (kept : list record) (log : Log) :
  filter_and_count filters data = Ok (kept, log) ->
  total_data_count log = length data /\
  parsed_data_count log = length (not_none data) /\
  filtered_data_count log = length kept /\
  sublist kept (not_none data) /\
  filtered_data_count log <= parsed_data_count log <= total_data_count log.
Proof.
  unfold filter_and_count.
  destruct (filter_data filters (not_none data)) as [[[] | e] data1] eqn:Ef;
    [| discriminate].
  destruct (for_each data1 add_company ∅) as [[[] | e] company_set]; [| discriminate].
  intros H. injection H as <- <-. simpl.
  apply filter_data_sublist in Ef.
  pose proof (sublist_length _ _ Ef) as Hk. pose proof (not_none_length data) as Hn.
  split; [reflexivity |]. split; [reflexivity |]. split; [reflexivity |].
  split; [exact Ef |]. split; [exact Hk | exact Hn].
Qed.

Lemma counts_descend_witness :
  let out := result_get ([], empty_log) (filter_and_count no_engineer plain_data) in
  filter_and_count no_engineer plain_data = Ok (out.1, out.2) /\
  (total_data_count out.2 = length plain_data /\
   parsed_data_count out.2 = length (not_none plain_data) /\
   filtered_data_count out.2 = length out.1 /\
   sublist out.1 (not_none plain_data) /\
   filtered_data_count out.2 <= parsed_data_count out.2 <= total_data_count out.2) /\
  total_data_count out.2 = 3 /\ parsed_data_count out.2 = 2 /\
  filtered_data_count out.2 = 1.
Proof.
  intros out.
  assert (H : filter_and_count no_engineer plain_data = Ok (out.1, out.2)) by vm_refl.
  split; [exact H |]. split; [| repeat split; vm_refl].
  exact (counts_descend no_engineer plain_data out.1 out.2 H).
Defined.

(** Every record [parse_job] returns has the 25 keys. *)
Lemma extracted_dom env job :
  extracted env job -> dom job = (list_to_set fields : gset string).
Proof.
  intros (url & st & st' & H). apply parse_job_page in H.
  apply (extract_invariant env (fun d => dom d = list_to_set fields)
           (page_soup env st') url job).
  - intros k v Hw. apply keeps_dom_setitem. eapply may_write_fields, Hw.
  - apply initial_data_dom.
  - exact H.
Qed.

(** The company name of a record [parse_job] returns is a string. *)
Lemma extracted_company env job :
  extracted env job -> exists s, job !! "公司名稱" = Some (VStr s).
Proof.
  intros (url & st & st' & H). apply parse_job_page in H.
  apply extract_ok in H as (d1 & d2 & d3 & d4 & d5 & d6 &
                            H1 & H2 & H3 & H4 & H5 & H6 & ->).
  apply fill_required_ok in H1 as (c & t & p & _ & _ & _ & ->).
  exists (strip env c).
  eapply required_kept; try eassumption; [in_list |].
  rewrite !lookup_insert_ne by discriminate. apply lookup_insert_eq.
Qed.

Lemma add_company_ok (data : list record) (X : gset string) :
  (forall job, job ∈ data -> exists s, job !! "公司名稱" = Some (VStr s)) ->
  exists Y, for_each data add_company X = (Ok tt, Y).
Proof.
  revert X. induction data as [| job data IH]; intros X H.
  - eexists. reflexivity.
  - rewrite for_each_cons. unfold add_company at 1.
    destruct (H job) as [s Hs]; [left |]. rewrite Hs.
    apply IH. intros j Hj. apply H. right. exact Hj.
Qed.

Lemma elem_of_not_none (data : list (option record)) job :
  job ∈ not_none data -> Some job ∈ data.
Proof.
  unfold not_none. intros H. apply list_elem_of_omap in H as (o & Ho & Hid).
  simpl in Hid. subst o. exact Ho.
Qed.

(** X18. On what the extractor returns, the filtering and counting of
    lines 215 to 234 cannot fail as long as the configuration names only
    keys of the field set: every record has every such column and has a
    string as its company name. *)
Theorem filter_and_count_total (env : Env) (filters : list (string * FilterRule))
    (data : list (option record)) :
  (forall job, Some job ∈ data -> extracted env job) ->
  (forall f, f ∈ filters -> f.1 ∈ fields) ->
  exists kept log, filter_and_count filters data = Ok (kept, log).
Proof.
  intros Hx Hf. unfold filter_and_count.
  rewrite filter_data_filter.
  - destruct (add_company_ok (List.filter (passes filters) (not_none data)) ∅)
      as [Y HY].
    + intros job Hjob. apply list_elem_of_In in Hjob.
      apply filter_In in Hjob as [Hjob _]. apply list_elem_of_In in Hjob.
      eapply extracted_company, Hx, elem_of_not_none, Hjob.
    + rewrite HY. eexists _, _. reflexivity.
  - intros f Hin job Hjob.
    apply (elem_of_dom (D := gset string)).
    rewrite (extracted_dom env job) by (apply Hx, elem_of_not_none, Hjob).
    apply elem_of_list_to_set, Hf, Hin.
Qed.

Lemma sample_data_extracted :
  forall job, Some job ∈ sample_data -> extracted site job.
Proof.
  intros job H.
  apply elem_of_cons in H as [H | H].
  { apply (inj Some) in H. subst job.
    exists "https://www.104.com.tw/job/full", (initial_process, 0),
      (parse_job site "https://www.104.com.tw/job/full" (initial_process, 0)).2.
    vm_refl. }
  apply elem_of_cons in H as [H | H]; [discriminate H |].
  apply elem_of_cons in H as [H | H]; [| apply elem_of_nil in H; contradiction].
  apply (inj Some) in H. subst job.
  exists "https://www.104.com.tw/job/bare", (initial_process, 0),
    (parse_job site "https://www.104.com.tw/job/bare" (initial_process, 0)).2.
  vm_refl.
Qed.

Lemma filter_and_count_total_witness :
  (forall job, Some job ∈ sample_data -> extracted site job) /\
  (forall f, f ∈ engineer_only -> f.1 ∈ fields) /\
  exists kept log, filter_and_count engineer_only sample_data = Ok (kept, log).
Proof.
  assert (H : forall f, f ∈ engineer_only -> f.1 ∈ fields).
  { apply Forall_forall. in_list. }
  split; [exact sample_data_extracted |]. split; [exact H |].
  exact (filter_and_count_total site engineer_only sample_data sample_data_extracted H).
Defined.

(** ** A whole run *)

Lemma pool_imap_results env {A B} (f : A -> Py State B) (tasks : list A)
    (st st' : State) (ys : list B) :
  pool_imap env f tasks st = (Ok ys, st') ->
  length ys = length tasks /\ st'.1 = st.1.
Proof.
  destruct st as [parent k]. unfold pool_imap.
  destruct (run_tasks env f 0 tasks (fun _ => parent) k) as [[r ws] k'] eqn:E.
  intros H. injection H as -> <-.
  apply run_tasks_order in E. split; [| reflexivity].
  symmetry. eapply Forall2_length, E.
Qed.

Lemma pool_imap_lift env {A B} (g : A -> result B) (tasks : list A) (st : State) :
  pool_imap env (fun x => lift (g x)) tasks st = (results_of g tasks, st).
Proof.
  destruct st as [parent k]. unfold pool_imap.
  destruct (run_tasks_pure env (fun x => lift (g x)) g tasks 0 (fun _ => parent) k)
    as [ws H]; [reflexivity |].
  rewrite H. reflexivity.
Qed.

(** X19. In a run of lines 198 to 234 that starts with the globals as the
    module sets them and runs through, the links of all listing pages were
    extracted, the total count in the log is the number of those links (no
    URL is visited a second time), and the parent's [error_log] is empty
    at the end. *)
Theorem crawl_totals (env : Env) (filters : list (string * FilterRule))
    (page_sources : list string) (k : nat) (kept : list record) (log : Log)
    (st' : State) :
  crawl env filters page_sources (initial_process, k) = (Ok (kept, log), st') ->
  exists packs,
    results_of (get_job_urls env) page_sources = Ok packs /\
    total_data_count log = length (concat packs) /\
    error_log st'.1 = [].
Proof.
  unfold crawl. intros H.
  apply bind_ok in H as (packs & st1 & H1 & H).
  rewrite pool_imap_lift in H1. injection H1 as H1 <-.
  apply bind_ok in H as (data & st2 & H2 & H).
  apply pool_imap_results in H2 as [Hlen Hp]. simpl in Hp.
  apply bind_ok in H as (data' & st3 & H3 & H).
  unfold retry_errors, bind in H3. rewrite Hp in H3. simpl in H3.
  unfold ret in H3. injection H3 as <- <-.
  apply lift_ok in H as [H ->].
  exists packs. split; [exact H1 |]. split; [| rewrite Hp; reflexivity].
  unfold filter_and_count in H.
  destruct (filter_data filters (not_none data)) as [[[] | e] data1]; [| discriminate].
  destruct (for_each data1 add_company ∅) as [[[] | e] company_set]; [| discriminate].
  injection H as _ <-. simpl. exact Hlen.
Qed.

Lemma crawl_totals_witness :
  let out := crawl site [] [render listing_page; render flaky_listing] (initial_process, 0) in
  let res := result_get ([], empty_log) out.1 in
  out = (Ok (res.1, res.2), out.2) /\
  total_data_count res.2 = 3 /\
  exists packs,
    results_of (get_job_urls site) [render listing_page; render flaky_listing] = Ok packs /\
    total_data_count res.2 = length (concat packs) /\
    error_log out.2.1 = [].
Proof.
  intros out res.
  assert (H : out = (Ok (res.1, res.2), out.2)) by vm_refl.
  split; [exact H |]. split; [vm_refl |].
  exact (crawl_totals site [] [render listing_page; render flaky_listing] 0
           res.1 res.2 out.2 H).
Defined.

(** ** More on the listing pages *)

Lemma collect_step env (l l' : Listing) :
  bind append_page_source
    (fun _ => bind (click_next_page env) (fun _ => wait_next_page)) l = (Ok tt, l') ->
  page_sources l' = (page_sources l ++ [page_source (driver l)])%list /\
  clock l' = S (clock l).
Proof.
  intros H.
  apply bind_ok in H as ([] & l1 & H1 & H).
  apply bind_ok in H as ([] & l2 & H2 & H3).
  unfold append_page_source in H1. injection H1 as <-.
  unfold click_next_page in H2. simpl in H2.
  destruct (resp_error _); [discriminate |]. injection H2 as <-.
  unfold wait_next_page in H3. injection H3 as _ <-. simpl. auto.
Qed.

Lemma collect_loop env {A} (rounds : list A) (l l' : Listing) :
  for_each rounds
    (fun _ => bind append_page_source
                (fun _ => bind (click_next_page env) (fun _ => wait_next_page))) l
  = (Ok tt, l') ->
  exists sources,
    page_sources l' = (page_sources l ++ sources)%list /\
    length sources = length rounds /\
    clock l' = (clock l + length rounds)%nat.
Proof.
  revert l. induction rounds as [| x rounds IH]; intros l H.
  - simpl in H. unfold ret in H. injection H as <-.
    exists []. rewrite app_nil_r. simpl. auto.
  - rewrite for_each_cons in H.
    destruct (bind _ _ l) as [[[] | e] l1] eqn:E; [| discriminate].
    apply collect_step in E as [Es Ec].
    apply IH in H as (sources & Hs & Hl & Hc).
    exists (page_source (driver l) :: sources).
    rewrite Hs, Es, <- app_assoc, Hc, Ec. simpl. repeat split; lia.
Qed.

(** X20. When lines 188 to 194 run through, they have clicked the
    next-page control [max (n_pages - 2) 0] times, have appended one page
    source more than that to [page_sources], and the last source appended
    is that of the page the driver shows at the end. *)
Theorem collect_page_sources_run (env : Env) (n_pages : Z) (l l' : Listing) :
  collect_page_sources env n_pages l = (Ok tt, l') ->
  exists sources,
    page_sources l' = (page_sources l ++ sources ++ [page_source (driver l')])%list /\
    length sources = Z.to_nat (n_pages - 2) /\
    clock l' = (clock l + Z.to_nat (n_pages - 2))%nat.
Proof.
  unfold collect_page_sources. intros H.
  apply bind_ok in H as ([] & l1 & H1 & H2).
  apply collect_loop in H1 as (sources & Hs & Hl & Hc).
  unfold append_page_source in H2. injection H2 as <-. simpl.
  exists sources. rewrite Hs, <- app_assoc.
  unfold range in Hl, Hc. rewrite length_map, length_seq in Hl, Hc. auto.
Qed.

Lemma collect_page_sources_run_witness :
  let out := collect_page_sources site 4 first_listing in
  out = (Ok tt, out.2) /\
  page_sources out.2 = ["<p>page 1</p>"; "<p>page 2</p>"; "<p>page 3</p>"] /\
  exists sources,
    page_sources out.2
    = (page_sources first_listing ++ sources ++ [page_source (driver out.2)])%list /\
    length sources = Z.to_nat (4 - 2) /\
    clock out.2 = (clock first_listing + Z.to_nat (4 - 2))%nat.
Proof.
  intros out.
  assert (H : out = (Ok tt, out.2)) by vm_refl.
  split; [exact H |]. split; [vm_refl |].
  exact (collect_page_sources_run site 4 first_listing out.2 H).
Defined.

(** X21. For a page count of 2 or less (also 0 or a negative number) the
    loop of line 189 does not run: the only page source collected is that
    of the page the driver shows, no control is clicked, and nothing can
    fail. *)
Theorem collect_page_sources_small (env : Env) (n_pages : Z) (l : Listing) :
  (n_pages <= 2)%Z ->
  collect_page_sources env n_pages l
  = (Ok tt, {| driver := driver l; clock := clock l;
               page_sources := (page_sources l ++ [page_source (driver l)])%list |}).
Proof.
  intros H. unfold collect_page_sources, range.
  replace (Z.to_nat (n_pages - 2)) with 0%nat by lia.
  reflexivity.
Qed.

Lemma collect_page_sources_small_witness :
  (2 <= 2)%Z /\
  collect_page_sources site 2 first_listing
  = (Ok tt, {| driver := driver first_listing; clock := clock first_listing;
               page_sources :=
                 (page_sources first_listing
                    ++ [page_source (driver first_listing)])%list |}).
Proof.
  split; [lia |].
  exact (collect_page_sources_small site 2 first_listing ltac:(lia)).
Defined.

(** ** The page count *)

Lemma split_word (w : string) : has_space w = false -> split_space w = [w].
Proof.
  induction w as [| c w IH]; simpl; [reflexivity |].
  intros H. apply orb_false_iff in H as [Hc Hw].
  rewrite Hc, (IH Hw). reflexivity.
Qed.

Lemma split_word_app (w rest : string) :
  has_space w = false ->
  split_space (w +:+ " " +:+ rest) = w :: split_space rest.
Proof.
  induction w as [| c w IH]; simpl.
  - intros _. reflexivity.
  - intros H. apply orb_false_iff in H as [Hc Hw].
    rewrite Hc. simpl in IH. rewrite (IH Hw). reflexivity.
Qed.

(** Splitting at the spaces undoes joining with single spaces. *)
Lemma split_join (parts : list string) :
  parts <> [] ->
  Forall (fun w => has_space w = false) parts ->
  split_space (join " " parts) = parts.
Proof.
  induction parts as [| w parts IH]; [contradiction |].
  intros _ H. inversion H as [| ? ? Hw Hrest]; subst.
  destruct parts as [| w' parts].
  - simpl. apply split_word, Hw.
  - change (join " " (w :: w' :: parts)) with (w +:+ " " +:+ join " " (w' :: parts)).
    rewrite (split_word_app w _ Hw), IH; [reflexivity | discriminate | exact Hrest].
Qed.

Lemma second_to_last_app {A} (front : list A) (x y : A) :
  second_to_last (front ++ [x; y])%list = Ok x.
Proof.
  unfold second_to_last, list_getitem. rewrite length_app. simpl.
  replace (length front + 2 <? 2)%nat with false
    by (symmetry; apply Nat.ltb_ge; lia).
  replace (length front + 2 - 2)%nat with (length front + 0)%nat by lia.
  rewrite lookup_app_r by lia.
  replace (length front + 0 - length front)%nat with 0%nat by lia. reflexivity.
Qed.

(** X22. The page count is [int] of the second-to-last of the words the
    text of the first option of the page-select control is made of, the
    words being what single spaces separate. *)
Theorem page_count_second_to_last (int : string -> result Z) (soup : node)
    (front : list string) (word last_word : string) :
  page_select_text soup = Some (join " " (front ++ [word; last_word])) ->
  Forall (fun w => has_space w = false) (front ++ [word; last_word]) ->
  page_count int soup = int word.
Proof.
  unfold page_select_text, page_count, and_then. simpl.
  destruct (find soup "select" _) as [select |]; [| discriminate]. simpl.
  destruct (find select "option" []) as [option |]; [| discriminate]. simpl.
  intros H Hw. injection H as ->.
  rewrite split_join; [| destruct front; discriminate | exact Hw].
  rewrite second_to_last_app. reflexivity.
Qed.

Lemma page_count_second_to_last_witness :
  page_select_text search_page = Some (join " " (["第"; "1"; "/"] ++ ["3"; "頁"])) /\
  Forall (fun w => has_space w = false) (["第"; "1"; "/"] ++ ["3"; "頁"]) /\
  page_count small_int search_page = small_int "3" /\
  small_int "3" = Ok 3%Z.
Proof.
  assert (H1 : page_select_text search_page
               = Some (join " " (["第"; "1"; "/"] ++ ["3"; "頁"]))) by vm_refl.
  assert (H2 : Forall (fun w => has_space w = false) (["第"; "1"; "/"] ++ ["3"; "頁"])).
  { repeat constructor. }
  split; [exact H1 |]. split; [exact H2 |]. split; [| reflexivity].
  exact (page_count_second_to_last small_int search_page ["第"; "1"; "/"] "3" "頁" H1 H2).
Defined.

(** X23. If the text of the first option holds no space, there is no
    second-to-last word and the page count fails with [IndexError]
    before [int] is called: the run ends there. *)
Theorem page_count_one_word (int : string -> result Z) (soup : node) (text : string) :
  page_select_text soup = Some text ->
  has_space text = false ->
  page_count int soup = Raise (Exn "IndexError" ["list index out of range"]).
Proof.
  unfold page_select_text, page_count, and_then. simpl.
  destruct (find soup "select" _) as [select |]; [| discriminate]. simpl.
  destruct (find select "option" []) as [option |]; [| discriminate]. simpl.
  intros H Hw. injection H as ->.
  rewrite (split_word _ Hw). reflexivity.
Qed.

Lemma page_count_one_word_witness :
  let soup := soup_of [el "select" [cls ["page-select"]]
                         [el "option" [] [NavigableString "3"]]] in
  page_select_text soup = Some "3" /\
  has_space "3" = false /\
  page_count small_int soup = Raise (Exn "IndexError" ["list index out of range"]).
Proof.
  intros soup.
  assert (H1 : page_select_text soup = Some "3") by vm_refl.
  split; [exact H1 |]. split; [reflexivity |].
  exact (page_count_one_word small_int soup "3" H1 eq_refl).
Defined.
